(** * MongoCsvSeeder: a shallow embedding of [main.go]

    The seeder streams a CSV file into a MongoDB collection in batches of
    1000 documents and records, after every successful bulk insert, the
    [PlaceID] of the last inserted row in a progress file so that a later
    run can resume.

    The Go standard library and the MongoDB driver are outside the
    repository.  Pure string helpers of package [strings] are written out
    ([Trim], [TrimSpace], [Split], [ToLower]); everything that depends on
    the outside world ([strconv.ParseFloat], [os.ReadFile], [os.WriteFile],
    [InsertMany], the environment) is an oracle collected in [Env]. *)

From Stdlib Require Import List String Ascii Bool Arith Lia PeanoNat DecimalString.
From Stdlib Require Import Floats.PrimFloat.
Import ListNotations.

Local Open Scope string_scope.
Local Open Scope list_scope.

(** ** Package [strings] *)

Module Strings.

(** [strings.ContainsRune(cutset, c)] for a one-byte [c]. *)
Fixpoint inCutset (cutset : string) (c : ascii) : bool :=
  match cutset with
  | EmptyString => false
  | String d rest => Ascii.eqb c d || inCutset rest c
  end.

Fixpoint TrimLeft (s cutset : string) : string :=
  match s with
  | EmptyString => EmptyString
  | String c rest => if inCutset cutset c then TrimLeft rest cutset else s
  end.

Fixpoint TrimRight (s cutset : string) : string :=
  match s with
  | EmptyString => EmptyString
  | String c rest =>
      match TrimRight rest cutset with
      | EmptyString => if inCutset cutset c then EmptyString else String c EmptyString
      | kept => String c kept
      end
  end.

(** [strings.Trim(s, cutset)]: all leading and trailing bytes contained in
    [cutset] removed.  The program only passes ASCII cut sets, for which Go
    trims byte by byte. *)
Definition Trim (s cutset : string) : string :=
  TrimRight (TrimLeft s cutset) cutset.

Definition bytes (l : list nat) : string :=
  string_of_list_ascii (map ascii_of_nat l).

(** The six ASCII bytes of Go's [asciiSpace] table. *)
Definition asciiSpace : string := bytes [9; 10; 11; 12; 13; 32].

(** UTF-8 encodings of the remaining runes for which [unicode.IsSpace]
    holds: U+0085, U+00A0, U+1680, U+2000..U+200A, U+2028, U+2029, U+202F,
    U+205F, U+3000. *)
Definition unicodeSpaces : list string :=
  map bytes
    ([[194; 133]; [194; 160]; [225; 154; 128]]
       ++ map (fun k => [226; 128; 128 + k]) (seq 0 11)
       ++ [[226; 128; 168]; [226; 128; 169]; [226; 128; 175];
           [226; 129; 159]; [227; 128; 128]]).

Fixpoint dropBytes (n : nat) (s : string) : string :=
  match n, s with
  | S k, String _ rest => dropBytes k rest
  | _, _ => s
  end.

(** Width in bytes of the white-space rune [s] starts with; [0] if it
    starts with none. *)
Definition spaceWidth (table : list string) (s : string) : nat :=
  match s with
  | EmptyString => 0
  | String c _ =>
      if inCutset asciiSpace c then 1
      else match find (fun p => prefix p s) table with
           | Some p => String.length p
           | None => 0
           end
  end.

Fixpoint trimSpaceLeft (fuel : nat) (table : list string) (s : string) : string :=
  match fuel with
  | 0 => s
  | S f =>
      match spaceWidth table s with
      | 0 => s
      | w => trimSpaceLeft f table (dropBytes w s)
      end
  end.

Definition revString (s : string) : string :=
  string_of_list_ascii (rev (list_ascii_of_string s)).

(** [strings.TrimSpace(s)]: leading and trailing Unicode white space
    removed.  The trailing side runs the leading-side scan over the reversed
    string with the reversed encodings. *)
Definition TrimSpace (s : string) : string :=
  let l := trimSpaceLeft (String.length s) unicodeSpaces s in
  revString (trimSpaceLeft (String.length l) (map revString unicodeSpaces) (revString l)).

(** Scanner behind [Split]: [skip] counts the bytes of a separator
    occurrence still to be passed over. *)
Fixpoint splitFrom (sep : string) (skip : nat) (s : string) : list string :=
  match s with
  | EmptyString => [EmptyString]
  | String c rest =>
      match skip with
      | S k => splitFrom sep k rest
      | 0 =>
          if prefix sep s then EmptyString :: splitFrom sep (String.length sep - 1) rest
          else match splitFrom sep 0 rest with
               | piece :: pieces => String c piece :: pieces
               | [] => [String c EmptyString]
               end
      end
  end.

(** [strings.Split(s, sep)]: the pieces of [s] between the leftmost
    non-overlapping occurrences of [sep].  With an empty separator Go
    explodes [s] into its characters (the program never does that). *)
Definition Split (s sep : string) : list string :=
  match sep with
  | EmptyString => map (fun c => String c EmptyString) (list_ascii_of_string s)
  | _ => splitFrom sep 0 s
  end.

Definition lowerByte (c : ascii) : ascii :=
  let n := nat_of_ascii c in
  if Nat.leb 65 n && Nat.leb n 90 then ascii_of_nat (n + 32) else c.

(** [strings.ToLower] on the ASCII letters; other bytes are kept. *)
Fixpoint ToLower (s : string) : string :=
  match s with
  | EmptyString => EmptyString
  | String c rest => String (lowerByte c) (ToLower rest)
  end.

End Strings.

(** ** [parseArrayFromColumn] *)

Definition parseArrayFromColumn (csv : string) : list string :=
  let cleaned := Strings.Trim csv "[]" in
  let items := Strings.Split cleaned "," in
  map (fun item => Strings.TrimSpace (Strings.Trim item "'")) items.

(** ** Data model *)

(** A value of Go's [any]; the program never builds one. *)
Inductive any : Type :=
| AnyString (s : string)
| AnyBool (b : bool).

(** A [time.Time], only ever used behind a nil pointer. *)
Inductive Time : Type := UnixNano (ns : nat).

(** [Type] is reserved in Rocq, and [Location] names both a struct and a
    field of [Place]: the clashing fields carry a trailing underscore. *)
Record Location : Type := {
  Type_ : string;
  Coordinates : float * float
}.

Record Place : Type := {
  PlaceID : string;
  Address : string;
  Version : string;
  IsAutoCompleteAddress : bool;
  Types : list string;
  PlusCode : string;
  City : string;
  Division : string;
  District : string;
  PostalCode : string;
  Sublocality : string;
  LocalArea : string;
  Location_ : option Location;
  Suggestions : list any;
  Reviews : list any;
  MergedAt : option Time;
  IsMerged : bool
}.

(** ** The outside world *)

(** What [os.WriteFile] did: on failure the operating system decides what
    is left at the path ([None]: no file). *)
Inductive WriteResult : Type :=
| Written
| WriteFailed (err : string) (residue : option string).

(** One [reader.Read()] of the [csv.Reader]: a record or an error.  The end
    of the list is [io.EOF]. *)
Inductive ReadResult : Type :=
| Row (record : list string)
| ReadError (err : string).

Inductive result (A : Type) : Type :=
| Ok (a : A)
| Failed (err : string).
Arguments Ok {A} a.
Arguments Failed {A} err.

(** The collaborators of the program.  Errors are carried as the text of
    [err.Error()]; [InsertMany] and [WriteFile] are asked with the number of
    earlier calls, so an environment may fail any call it likes. *)
Record Env : Type := {
  LoadDotenv : option string;
  Getenv : string -> string;
  Connect : string -> option string;
  Open : string -> result (list ReadResult);
  ReadFileFault : string -> option string;
  ParseFloat : string -> float * option string;
  InsertMany : nat -> list Place -> option string;
  WriteFile : nat -> string -> string -> WriteResult
}.

Inductive Event : Type :=
| EvInsert (batch : list Place) (err : option string)
| EvWrite (name data : string) (res : WriteResult)
| EvLog (line : string)
| EvPrint (line : string).

(** Mutable state outside the process: the files by name and everything the
    run has done so far, oldest event first.  The progress bar and the
    goroutines (the delayed "GOT EOF" print, the signal handler) are display
    and cancellation only and are left out. *)
Record World : Type := {
  files : string -> option string;
  trace : list Event
}.

Definition emit (e : Event) (w : World) : World :=
  {| files := files w; trace := trace w ++ [e] |}.

(** Views of a trace.  [collection] lists the batches whose InsertMany
    returned nil; what a failed bulk write may have stored of its batch is
    not recorded. *)
Definition collection (tr : list Event) : list (list Place) :=
  flat_map (fun e => match e with EvInsert b None => [b] | _ => [] end) tr.

Definition insertCalls (tr : list Event) : nat :=
  List.length (flat_map (fun e => match e with EvInsert _ _ => [tt] | _ => [] end) tr).

Definition writeCalls (tr : list Event) : nat :=
  List.length (flat_map (fun e => match e with EvWrite _ _ _ => [tt] | _ => [] end) tr).

Definition logged (tr : list Event) : list string :=
  flat_map (fun e => match e with EvLog l => [l] | _ => [] end) tr.

(** ** Panics *)

Inductive Panic : Type :=
| IndexOutOfRange (index len : nat).

Inductive Res (A : Type) : Type :=
| Val (a : A)
| Throw (p : Panic).
Arguments Val {A} a.
Arguments Throw {A} p.

Definition bind {A B : Type} (m : Res A) (k : A -> Res B) : Res B :=
  match m with
  | Val a => k a
  | Throw p => Throw p
  end.

Notation "x <- m ;; k" := (bind m (fun x => k))
  (at level 61, m at next level, right associativity).

(** [record[i]] *)
Definition index (record : list string) (i : nat) : Res string :=
  match nth_error record i with
  | Some field => Val field
  | None => Throw (IndexOutOfRange i (List.length record))
  end.

(** ** [parseFloat] *)

Definition parseFloat (env : Env) (val : string) : float :=
  match ParseFloat env val with
  | (_, Some _) => PrimFloat.zero
  | (parsedVal, None) => parsedVal
  end.

(** ** The entity mapper: the [Place{...}] literal of [processCSV]

    The index expressions are evaluated in the order in which the literal
    lists them; the first one out of range panics.  Slices are lists: the
    empty [[]any{}] is [[]]. *)

Definition mapPlace (env : Env) (record : list string) : Res Place :=
  r0 <- index record 0 ;;
  r2 <- index record 2 ;;
  r12 <- index record 12 ;;
  r3 <- index record 3 ;;
  r1 <- index record 1 ;;
  r8 <- index record 8 ;;
  r5 <- index record 5 ;;
  r6 <- index record 6 ;;
  r7 <- index record 7 ;;
  r11 <- index record 11 ;;
  r13 <- index record 13 ;;
  r14 <- index record 14 ;;
  r10 <- index record 10 ;;
  r9 <- index record 9 ;;
  Val {| PlaceID := r0;
         Address := r2;
         Version := r12;
         IsAutoCompleteAddress := String.eqb (Strings.ToLower r3) "true";
         Types := parseArrayFromColumn r1;
         PlusCode := r8;
         City := r5;
         Division := r6;
         District := r7;
         PostalCode := r11;
         Sublocality := r13;
         LocalArea := r14;
         Location_ := Some {| Type_ := "Point";
                              Coordinates := (parseFloat env r10, parseFloat env r9) |};
         Suggestions := [];
         Reviews := [];
         MergedAt := None;
         IsMerged := false |}.

(** ** The progress file *)

(** Initial value of the package variable [progressFile]. *)
Definition progressFile : string := "_progress.txt".

Definition setFile (name : string) (content : option string) (w : World) : World :=
  {| files := fun n => if String.eqb n name then content else files w n;
     trace := trace w |}.

(** [getLastProcessedPlaceID], reading the file named [name] (the current
    value of the package variable). *)
Definition getLastProcessedPlaceID (env : Env) (name : string) (w : World) : result string :=
  match ReadFileFault env name with
  | Some err => Failed err
  | None =>
      match files w name with
      | None => Ok ""
      | Some data => Ok (Strings.TrimSpace data)
      end
  end.

(** [updateLastProcessedPlaceID]: no result; a failed write is logged. *)
Definition updateLastProcessedPlaceID (env : Env) (name placeID : string) (w : World) : World :=
  match WriteFile env (writeCalls (trace w)) name placeID with
  | Written =>
      emit (EvWrite name placeID Written) (setFile name (Some placeID) w)
  | WriteFailed err residue =>
      emit (EvLog ("Error updating progress file: " ++ err)%string)
        (emit (EvWrite name placeID (WriteFailed err residue)) (setFile name residue w))
  end.

(** [collection.InsertMany(ctx, batch)] *)
Definition insertMany (env : Env) (batch : list Place) (w : World) : option string * World :=
  let err := InsertMany env (insertCalls (trace w)) batch in
  (err, emit (EvInsert batch err) w).

(** ** [processCSV] *)

Definition batchSize : nat := 1000.

Inductive Outcome : Type :=
| Returned (err : option string)
| Panicked (p : Panic).

(** The variables the [for] loop of [processCSV] carries. *)
Record LoopState : Type := {
  startProcessing : bool;
  batch : list Place;
  world : World
}.

Inductive Step : Type :=
| Continue (st : LoopState)
| Stop (o : Outcome) (w : World).

(** One iteration of the loop on a record that was read. *)
Definition body (env : Env) (name lastProcessedID : string)
    (st : LoopState) (record : list string) : Step :=
  match (if startProcessing st then Val false
         else r0 <- index record 0 ;; Val (String.eqb r0 lastProcessedID)) with
  | Throw p => Stop (Panicked p) (world st)
  | Val true =>
      Continue {| startProcessing := true; batch := batch st; world := world st |}
  | Val false =>
      if negb (startProcessing st) then Continue st
      else
        match mapPlace env record with
        | Throw p => Stop (Panicked p) (world st)
        | Val place =>
            let batch1 := batch st ++ [place] in
            if Nat.leb batchSize (List.length batch1) then
              match insertMany env batch1 (world st) with
              | (Some err, w1) => Stop (Returned (Some err)) w1
              | (None, w1) =>
                  Continue {| startProcessing := startProcessing st;
                              batch := [];
                              world := updateLastProcessedPlaceID env name (PlaceID place) w1 |}
              end
            else
              Continue {| startProcessing := startProcessing st;
                          batch := batch1;
                          world := world st |}
        end
  end.

(** After the loop: "Insert remaining batch". *)
Definition insertRemaining (env : Env) (name : string) (st : LoopState) : Outcome * World :=
  if Nat.ltb 0 (List.length (batch st)) then
    match insertMany env (batch st) (world st) with
    | (Some err, w1) => (Returned (Some err), w1)
    | (None, w1) =>
        match nth_error (batch st) (List.length (batch st) - 1) with
        | Some place => (Returned None, updateLastProcessedPlaceID env name (PlaceID place) w1)
        | None => (Panicked (IndexOutOfRange (List.length (batch st) - 1) (List.length (batch st))), w1)
        end
    end
  else (Returned None, world st).

Fixpoint loop (env : Env) (name lastProcessedID : string)
    (reader : list ReadResult) (st : LoopState) : Outcome * World :=
  match reader with
  | [] => insertRemaining env name st
  | ReadError err :: rest =>
      if String.eqb err "EOF" then insertRemaining env name st
      else (Returned (Some err), world st)
  | Row record :: rest =>
      match body env name lastProcessedID st record with
      | Continue st1 => loop env name lastProcessedID rest st1
      | Stop o w => (o, w)
      end
  end.

(** [fmt.Println] of a [[]string]. *)
Definition showRecord (record : list string) : string :=
  ("[" ++ String.concat " " record ++ "]")%string.

Definition processCSV (env : Env) (name : string)
    (csvFile mongoURI dbName collectionName : string) (w : World) : Outcome * World :=
  match Connect env mongoURI with
  | Some err => (Returned (Some err), w)
  | None =>
      match Open env csvFile with
      | Failed err => (Returned (Some err), w)
      | Ok reader =>
          match getLastProcessedPlaceID env name w with
          | Failed err => (Returned (Some err), w)
          | Ok lastProcessedID =>
              let st := {| startProcessing := String.eqb lastProcessedID "";
                           batch := [];
                           world := w |} in
              match reader with
              | [] =>
                  (Returned (Some "EOF"), emit (EvPrint "Error reading header: EOF") w)
              | ReadError err :: _ =>
                  (Returned (Some err),
                   emit (EvPrint ("Error reading header: " ++ err)%string) w)
              | Row header :: rest =>
                  loop env name lastProcessedID rest
                    {| startProcessing := startProcessing st;
                       batch := batch st;
                       world := emit (EvPrint ("Header: " ++ showRecord header)%string) w |}
              end
          end
      end
  end.

(** ** [main] *)

(** [log.Fatalf]: log the line, [os.Exit(1)]. *)
Definition fatal (line : string) (w : World) : nat * World :=
  (1, emit (EvLog line) w).

(** The assignment [progressFile = strings.Split(csvFile, ".")[0] + progressFile]. *)
Definition deriveProgressFile (csvFile : string) : Res string :=
  stem <- index (Strings.Split csvFile ".") 0 ;;
  Val (stem ++ progressFile)%string.

(** Exit status of the process and the world it leaves.  A panic ends a Go
    program with status 2. *)
Definition main (env : Env) (w : World) : nat * World :=
  match LoadDotenv env with
  | Some _ => fatal "Error loading .env file" w
  | None =>
      let csvFile := Getenv env "CSV_FILE" in
      if String.eqb csvFile "" then fatal "CSV_FILE environment variable not set" w else
      let mongoURI := Getenv env "MONGO_URI" in
      if String.eqb mongoURI "" then fatal "MONGO_URI environment variable not set" w else
      let dbName := Getenv env "DB_NAME" in
      if String.eqb dbName "" then fatal "DB_NAME environment variable not set" w else
      let collectionName := Getenv env "COLLECTION_NAME" in
      if String.eqb collectionName "" then fatal "COLLECTION_NAME environment variable not set" w else
      match deriveProgressFile csvFile with
      | Throw _ => (2, w)
      | Val name =>
          match processCSV env name csvFile mongoURI dbName collectionName w with
          | (Panicked _, w1) => (2, w1)
          | (Returned (Some err), w1) => fatal ("Error processing CSV: " ++ err)%string w1
          | (Returned None, w1) => (0, emit (EvPrint "CSV data inserted successfully!") w1)
          end
      end
  end.

(** ** Sample environments *)

Module Sample.

(** A stand-in for [strconv.ParseFloat] that knows three texts. *)
Definition parse (s : string) : float * option string :=
  if String.eqb s "90.5" then (90.5%float, None)
  else if String.eqb s "23.75" then (23.75%float, None)
  else if String.eqb s "0" then (PrimFloat.zero, None)
  else (PrimFloat.zero, Some ("strconv.ParseFloat: parsing " ++ s ++ ": invalid syntax")%string).

Definition header : list string :=
  ["place_id"; "types"; "address"; "auto"; "country"; "city"; "division"; "district";
   "plus_code"; "lat"; "lng"; "postal"; "version"; "sublocality"; "local_area"].

Definition row (key : string) : list string :=
  [key; "['a', 'b']"; "12 Road"; "TRUE"; "Bangladesh"; "Dhaka"; "Dhaka"; "Dhaka";
   "7MQ"; "23.75"; "90.5"; "1207"; "v1"; "Mirpur"; "Block C"].

(** The entity of [row key]. *)
Definition place (key : string) : Place :=
  {| PlaceID := key;
     Address := "12 Road";
     Version := "v1";
     IsAutoCompleteAddress := true;
     Types := ["a"; "'b"];
     PlusCode := "7MQ";
     City := "Dhaka";
     Division := "Dhaka";
     District := "Dhaka";
     PostalCode := "1207";
     Sublocality := "Mirpur";
     LocalArea := "Block C";
     Location_ := Some {| Type_ := "Point"; Coordinates := (90.5%float, 23.75%float) |};
     Suggestions := [];
     Reviews := [];
     MergedAt := None;
     IsMerged := false |}.

Definition getenv (name : string) : string :=
  if String.eqb name "CSV_FILE" then "places.csv"
  else if String.eqb name "MONGO_URI" then "mongodb://localhost:27017"
  else if String.eqb name "DB_NAME" then "geo"
  else if String.eqb name "COLLECTION_NAME" then "places"
  else "".

(** An environment in which nothing fails and [places.csv] holds [rows]
    under the header. *)
Definition env (rows : list (list string)) : Env :=
  {| LoadDotenv := None;
     Getenv := getenv;
     Connect := fun _ => None;
     Open := fun _ => Ok (Row header :: map Row rows);
     ReadFileFault := fun _ => None;
     ParseFloat := parse;
     InsertMany := fun _ _ => None;
     WriteFile := fun _ _ _ => Written |}.

(** The same, with a store that rejects every bulk insert. *)
Definition rejecting (rows : list (list string)) : Env :=
  {| LoadDotenv := None;
     Getenv := getenv;
     Connect := fun _ => None;
     Open := fun _ => Ok (Row header :: map Row rows);
     ReadFileFault := fun _ => None;
     ParseFloat := parse;
     InsertMany := fun _ _ => Some "write rejected";
     WriteFile := fun _ _ _ => Written |}.

(** Rows with the keys 1, 2, ..., n. *)
Definition rowsUpTo (n : nat) : list (list string) :=
  map (fun i => row (NilEmpty.string_of_uint (Nat.to_uint i))) (seq 1 n).

(** [rowsUpTo n] in [places.csv], a store that fails the insert call
    numbered [failing], and a progress file that cannot be written. *)
Definition unlucky (n failing : nat) : Env :=
  {| LoadDotenv := None;
     Getenv := getenv;
     Connect := fun _ => None;
     Open := fun _ => Ok (Row header :: map Row (rowsUpTo n));
     ReadFileFault := fun _ => None;
     ParseFloat := parse;
     InsertMany := fun i _ => if Nat.eqb i failing then Some "connection reset" else None;
     WriteFile := fun _ _ _ => WriteFailed "permission denied" None |}.

(** [rows] in [places.csv] and a store that fails the insert call numbered
    [failing]; the progress file can be written. *)
Definition failing (rows : list (list string)) (failing : nat) : Env :=
  {| LoadDotenv := None;
     Getenv := getenv;
     Connect := fun _ => None;
     Open := fun _ => Ok (Row header :: map Row rows);
     ReadFileFault := fun _ => None;
     ParseFloat := parse;
     InsertMany := fun i _ => if Nat.eqb i failing then Some "connection reset" else None;
     WriteFile := fun _ _ _ => Written |}.

(** The keys 1, 2, ..., n. *)
Definition keysUpTo (n : nat) : list string :=
  map (fun i => NilEmpty.string_of_uint (Nat.to_uint i)) (seq 1 n).

Definition noFiles : World := {| files := fun _ => None; trace := [] |}.

Definition withFile (name data : string) : World :=
  {| files := fun n => if String.eqb n name then Some data else None; trace := [] |}.

End Sample.

(** ** Specification side: batches as consecutive chunks *)

Section Chunks.

Context {A : Type}.

(** The list cut into consecutive pieces of [n] elements, the last piece
    holding what is left. *)
Fixpoint chunksFuel (fuel n : nat) (l : list A) : list (list A) :=
  match fuel with
  | 0 => []
  | S f =>
      match l with
      | [] => []
      | _ :: _ => firstn n l :: chunksFuel f n (skipn n l)
      end
  end.

Definition chunks (n : nat) (l : list A) : list (list A) :=
  chunksFuel (List.length l) n l.

End Chunks.

(** The natural key of the last entity of a batch. *)
Definition lastKey (b : list Place) : string :=
  match nth_error b (List.length b - 1) with
  | Some place => PlaceID place
  | None => ""
  end.

(** The sink committer run over batches that are already cut: insert, then
    advance the checkpoint, and stop at the first insert that fails. *)
Fixpoint commitAll (env : Env) (name : string) (batches : list (list Place))
    (w : World) : Outcome * World :=
  match batches with
  | [] => (Returned None, w)
  | b :: rest =>
      match insertMany env b w with
      | (Some err, w1) => (Returned (Some err), w1)
      | (None, w1) =>
          commitAll env name rest (updateLastProcessedPlaceID env name (lastKey b) w1)
      end
  end.

(** The records after the first one whose column 0 is [key]. *)
Fixpoint afterKey (key : string) (rows : list (list string)) : list (list string) :=
  match rows with
  | [] => []
  | r :: rest =>
      match r with
      | k :: _ => if String.eqb k key then rest else afterKey key rest
      | [] => afterKey key rest
      end
  end.

(** The records a run has to process when it starts from checkpoint [key]. *)
Definition pending (key : string) (rows : list (list string)) : list (list string) :=
  if String.eqb key "" then rows else afterKey key rows.

(** The calls a run made to the store and to the progress file, in order. *)
Inductive Call : Type :=
| CallInsert (batch : list Place) (err : option string)
| CallWrite (name data : string).

Definition calls (tr : list Event) : list Call :=
  flat_map (fun e => match e with
                     | EvInsert b err => [CallInsert b err]
                     | EvWrite n d _ => [CallWrite n d]
                     | _ => []
                     end) tr.

(** The loop state after the given records, while the loop keeps running. *)
Fixpoint advance (env : Env) (name lastProcessedID : string)
    (rows : list (list string)) (st : LoopState) : option LoopState :=
  match rows with
  | [] => Some st
  | r :: rest =>
      match body env name lastProcessedID st r with
      | Continue st1 => advance env name lastProcessedID rest st1
      | Stop _ _ => None
      end
  end.

(** The events one call of [updateLastProcessedPlaceID] adds. *)
Definition writeEvents (name placeID : string) (res : WriteResult) : list Event :=
  EvWrite name placeID res ::
  match res with
  | Written => []
  | WriteFailed err _ => [EvLog ("Error updating progress file: " ++ err)%string]
  end.

(** The calls of a run that commits the given batches one after the
    other. *)
Definition commitCalls (name : string) (batches : list (list Place)) : list Call :=
  flat_map (fun b => [CallInsert b None; CallWrite name (lastKey b)]) batches.

(** The bulk inserts of a run with their results. *)
Definition inserts (tr : list Event) : list (list Place * option string) :=
  flat_map (fun e => match e with EvInsert b err => [(b, err)] | _ => [] end) tr.

(** The environment with another behaviour of [os.WriteFile]. *)
Definition withWriteFile (env : Env)
    (writeFile : nat -> string -> string -> WriteResult) : Env :=
  {| LoadDotenv := LoadDotenv env;
     Getenv := Getenv env;
     Connect := Connect env;
     Open := Open env;
     ReadFileFault := ReadFileFault env;
     ParseFloat := ParseFloat env;
     InsertMany := InsertMany env;
     WriteFile := writeFile |}.

(** The part of a file name before its first dot. *)
Fixpoint beforeDot (s : string) : string :=
  match s with
  | EmptyString => EmptyString
  | String c rest => if Ascii.eqb c "." then EmptyString else String c (beforeDot rest)
  end.

(** The four settings are present and [.env] loads: [main] reaches
    [processCSV]. *)
Definition configured (env : Env) (csvFile mongoURI dbName collectionName : string) : Prop :=
  LoadDotenv env = None
  /\ Getenv env "CSV_FILE" = csvFile /\ csvFile <> ""
  /\ Getenv env "MONGO_URI" = mongoURI /\ mongoURI <> ""
  /\ Getenv env "DB_NAME" = dbName /\ dbName <> ""
  /\ Getenv env "COLLECTION_NAME" = collectionName /\ collectionName <> "".

(** Two loop states that agree on everything but the progress file and
    the events of its writes. *)
Definition alike (st1 st2 : LoopState) : Prop :=
  startProcessing st1 = startProcessing st2
  /\ batch st1 = batch st2
  /\ inserts (trace (world st1)) = inserts (trace (world st2)).

(** ** Specification side: the shape of a run *)

(** A batch the store may be handed: not empty, at most [batchSize]. *)
Definition goodBatch (b : list Place) : Prop :=
  0 < List.length b <= batchSize.

(** What a run that started in world [w0] and ended with [r] has done: it
    committed some batches one after the other, each insert followed by the
    write of that batch's last key, and then possibly made one more insert,
    which failed and whose error it returned.  It wrote no file but [name]. *)
Definition runShape (name : string) (w0 : World) (r : Outcome * World) : Prop :=
  exists batches tail,
    calls (trace (snd r)) = calls (trace w0) ++ commitCalls name batches ++ tail
    /\ collection (trace (snd r)) = collection (trace w0) ++ batches
    /\ Forall goodBatch batches
    /\ (tail = []
        \/ exists b err,
             tail = [CallInsert b (Some err)]
             /\ fst r = Returned (Some err) /\ goodBatch b)
    /\ (forall n, n <> name -> files (snd r) n = files w0 n).

(** What [commitAll] hands on when every insert went through. *)
Definition andThen (r : Outcome * World) (k : World -> Outcome * World) : Outcome * World :=
  match r with
  | (Returned None, w) => k w
  | _ => r
  end.

(** A printable ASCII byte other than the space. *)
Definition asciiGraphic (c : ascii) : bool :=
  Nat.ltb 32 (nat_of_ascii c) && Nat.ltb (nat_of_ascii c) 127.


(** ** Specification side: list texts *)

Fixpoint allBytes (f : ascii -> bool) (s : string) : bool :=
  match s with
  | EmptyString => true
  | String c rest => f c && allBytes f rest
  end.

Fixpoint countByte (c : ascii) (s : string) : nat :=
  match s with
  | EmptyString => 0
  | String d rest => (if Ascii.eqb d c then 1 else 0) + countByte c rest
  end.

(** A printable ASCII byte that is no bracket, quote, comma or space. *)
Definition plainByte (c : ascii) : bool :=
  asciiGraphic c && negb (Strings.inCutset "[]'," c).

Definition quoted (x : string) : string := ("'" ++ x ++ "'")%string.

(** The text ['x1','x2',...] of a list, without white space. *)
Definition listText (xs : list string) : string :=
  ("[" ++ String.concat "," (map quoted xs) ++ "]")%string.

(** ** The earlier seeder: [Location] documents and a country filter

    The repository keeps an earlier version of the program.  It differs
    from [main.go] in three places: it does not read a header before the
    loop, it skips every record whose column 4 is not "Bangladesh", and it
    stores [Location] documents with a latitude and a longitude.  Its
    helpers are those of [main.go].  A run takes the environment of
    [main.go] for everything but the store, and the store of [Location]
    documents as [store]: the error of the insert call with that number. *)

Module Legacy.

Record Coordinates : Type := {
  Lat : float;
  Long : float
}.

(** [CorrectCount] is an [int] that the program leaves at zero. *)
Record Location : Type := {
  PlaceID : string;
  Address : string;
  Coord : option Coordinates;
  Suggesters : list any;
  Reviewers : list any;
  IsMerged : bool;
  IsSuggested : bool;
  IsReviewed : bool;
  CorrectCount : nat
}.

Definition Store : Type := nat -> list Location -> option string.

Inductive Event : Type :=
| EvInsert (batch : list Location) (err : option string)
| EvWrite (name data : string) (res : WriteResult)
| EvLog (line : string).

Record World : Type := {
  files : string -> option string;
  trace : list Event
}.

Definition emit (e : Event) (w : World) : World :=
  {| files := files w; trace := trace w ++ [e] |}.

Definition collection (tr : list Event) : list (list Location) :=
  flat_map (fun e => match e with EvInsert b None => [b] | _ => [] end) tr.

Definition insertCalls (tr : list Event) : nat :=
  List.length (flat_map (fun e => match e with EvInsert _ _ => [tt] | _ => [] end) tr).

Definition writeCalls (tr : list Event) : nat :=
  List.length (flat_map (fun e => match e with EvWrite _ _ _ => [tt] | _ => [] end) tr).

Definition setFile (name : string) (content : option string) (w : World) : World :=
  {| files := fun n => if String.eqb n name then content else files w n;
     trace := trace w |}.

Definition getLastProcessedPlaceID (env : Env) (name : string) (w : World) : result string :=
  match ReadFileFault env name with
  | Some err => Failed err
  | None =>
      match files w name with
      | None => Ok ""
      | Some data => Ok (Strings.TrimSpace data)
      end
  end.

Definition updateLastProcessedPlaceID (env : Env) (name placeID : string) (w : World) : World :=
  match WriteFile env (writeCalls (trace w)) name placeID with
  | Written =>
      emit (EvWrite name placeID Written) (setFile name (Some placeID) w)
  | WriteFailed err residue =>
      emit (EvLog ("Error updating progress file: " ++ err)%string)
        (emit (EvWrite name placeID (WriteFailed err residue)) (setFile name residue w))
  end.

Definition insertMany (store : Store) (batch : list Location) (w : World) : option string * World :=
  let err := store (insertCalls (trace w)) batch in
  (err, emit (EvInsert batch err) w).

(** The [Location{...}] literal. *)
Definition mapLocation (env : Env) (record : list string) : Res Location :=
  r0 <- index record 0 ;;
  r2 <- index record 2 ;;
  r9 <- index record 9 ;;
  r10 <- index record 10 ;;
  Val {| PlaceID := r0;
         Address := r2;
         Coord := Some {| Lat := parseFloat env r9; Long := parseFloat env r10 |};
         Suggesters := [];
         Reviewers := [];
         IsMerged := false;
         IsSuggested := false;
         IsReviewed := false;
         CorrectCount := 0 |}.

Record LoopState : Type := {
  startProcessing : bool;
  batch : list Location;
  world : World
}.

Inductive Step : Type :=
| Continue (st : LoopState)
| Stop (o : Outcome) (w : World).

Definition body (env : Env) (store : Store) (name lastProcessedID : string)
    (st : LoopState) (record : list string) : Step :=
  match (if startProcessing st then Val false
         else r0 <- index record 0 ;; Val (String.eqb r0 lastProcessedID)) with
  | Throw p => Stop (Panicked p) (world st)
  | Val true =>
      Continue {| startProcessing := true; batch := batch st; world := world st |}
  | Val false =>
      if negb (startProcessing st) then Continue st
      else
        match index record 4 with
        | Throw p => Stop (Panicked p) (world st)
        | Val country =>
            if negb (String.eqb country "Bangladesh") then Continue st
            else
              match mapLocation env record with
              | Throw p => Stop (Panicked p) (world st)
              | Val location =>
                  let batch1 := batch st ++ [location] in
                  if Nat.leb batchSize (List.length batch1) then
                    match insertMany store batch1 (world st) with
                    | (Some err, w1) => Stop (Returned (Some err)) w1
                    | (None, w1) =>
                        Continue {| startProcessing := startProcessing st;
                                    batch := [];
                                    world := updateLastProcessedPlaceID env name
                                               (PlaceID location) w1 |}
                    end
                  else
                    Continue {| startProcessing := startProcessing st;
                                batch := batch1;
                                world := world st |}
              end
        end
  end.

Definition insertRemaining (env : Env) (store : Store) (name : string)
    (st : LoopState) : Outcome * World :=
  if Nat.ltb 0 (List.length (batch st)) then
    match insertMany store (batch st) (world st) with
    | (Some err, w1) => (Returned (Some err), w1)
    | (None, w1) =>
        match nth_error (batch st) (List.length (batch st) - 1) with
        | Some location =>
            (Returned None, updateLastProcessedPlaceID env name (PlaceID location) w1)
        | None =>
            (Panicked (IndexOutOfRange (List.length (batch st) - 1) (List.length (batch st))),
             w1)
        end
    end
  else (Returned None, world st).

Fixpoint loop (env : Env) (store : Store) (name lastProcessedID : string)
    (reader : list ReadResult) (st : LoopState) : Outcome * World :=
  match reader with
  | [] => insertRemaining env store name st
  | ReadError err :: rest =>
      if String.eqb err "EOF" then insertRemaining env store name st
      else (Returned (Some err), world st)
  | Row record :: rest =>
      match body env store name lastProcessedID st record with
      | Continue st1 => loop env store name lastProcessedID rest st1
      | Stop o w => (o, w)
      end
  end.

(** [processCSV] of the earlier version: the loop starts at the first line
    of the file. *)
Definition processCSV (env : Env) (store : Store) (name : string)
    (csvFile mongoURI dbName collectionName : string) (w : World) : Outcome * World :=
  match Connect env mongoURI with
  | Some err => (Returned (Some err), w)
  | None =>
      match Open env csvFile with
      | Failed err => (Returned (Some err), w)
      | Ok reader =>
          match getLastProcessedPlaceID env name w with
          | Failed err => (Returned (Some err), w)
          | Ok lastProcessedID =>
              loop env store name lastProcessedID reader
                {| startProcessing := String.eqb lastProcessedID "";
                   batch := [];
                   world := w |}
          end
      end
  end.

(** Specification side. *)

Definition lastKey (b : list Location) : string :=
  match nth_error b (List.length b - 1) with
  | Some location => PlaceID location
  | None => ""
  end.

Fixpoint commitAll (env : Env) (store : Store) (name : string)
    (batches : list (list Location)) (w : World) : Outcome * World :=
  match batches with
  | [] => (Returned None, w)
  | b :: rest =>
      match insertMany store b w with
      | (Some err, w1) => (Returned (Some err), w1)
      | (None, w1) =>
          commitAll env store name rest (updateLastProcessedPlaceID env name (lastKey b) w1)
      end
  end.

(** The records the filter keeps. *)
Definition kept (lines : list (list string)) : list (list string) :=
  filter (fun r => match nth_error r 4 with
                   | Some country => String.eqb country "Bangladesh"
                   | None => false
                   end) lines.

End Legacy.

(** ** Lemmas on chunks *)

Section ChunkFacts.

Context {A : Type}.
Implicit Types (l x : list A) (n : nat).

Lemma chunksFuel_enough : forall f1 f2 n l,
  0 < n -> List.length l <= f1 -> List.length l <= f2 ->
  chunksFuel f1 n l = chunksFuel f2 n l.
Proof.
  induction f1 as [|f1 IH]; intros f2 n l Hn H1 H2.
  - destruct l; [|simpl in H1; lia]. destruct f2; reflexivity.
  - destruct f2 as [|f2]; [destruct l; [reflexivity|simpl in H2; lia]|].
    destruct l as [|a l]; [reflexivity|].
    cbn [chunksFuel]. f_equal.
    apply IH; trivial; rewrite length_skipn; cbn [List.length] in *; lia.
Qed.

Lemma chunks_nil : forall n, chunks n (@nil A) = [].
Proof. reflexivity. Qed.

Lemma chunks_step : forall n l,
  0 < n -> l <> [] -> chunks n l = firstn n l :: chunks n (skipn n l).
Proof.
  intros n l Hn Hl. unfold chunks.
  destruct l as [|a l]; [congruence|].
  cbn [List.length chunksFuel]. f_equal.
  apply chunksFuel_enough; trivial; rewrite length_skipn; cbn [List.length]; lia.
Qed.

Lemma chunks_app_full : forall n x l,
  0 < n -> List.length x = n -> chunks n (x ++ l) = x :: chunks n l.
Proof.
  intros n x l Hn Hx. subst n.
  rewrite chunks_step; trivial.
  - rewrite firstn_app, skipn_app, Nat.sub_diag, firstn_all, skipn_all.
    cbn [firstn skipn app]. now rewrite app_nil_r.
  - destruct x; [simpl in Hn; lia|discriminate].
Qed.

Lemma chunks_small : forall n x,
  0 < List.length x <= n -> chunks n x = [x].
Proof.
  intros n x Hx.
  rewrite chunks_step; [|lia|destruct x; [simpl in Hx; lia|discriminate]].
  rewrite firstn_all2, skipn_all2 by lia. reflexivity.
Qed.

Lemma concat_chunks : forall n l, 0 < n -> List.concat (chunks n l) = l.
Proof.
  intros n l Hn.
  remember (List.length l) as m eqn:Hm.
  revert l Hm. induction m as [m IH] using lt_wf_ind. intros l Hm.
  destruct l as [|a l]; [reflexivity|].
  rewrite chunks_step by (trivial; discriminate).
  cbn [List.concat].
  rewrite (IH (List.length (skipn n (a :: l)))); trivial.
  - apply firstn_skipn.
  - rewrite length_skipn. subst m. cbn [List.length]. lia.
Qed.

(** Every chunk is full except possibly the last one, which holds the
    remainder. *)
Lemma chunks_shape : forall n l,
  0 < n ->
  exists full tail,
    chunks n l = full ++ tail
    /\ Forall (fun b => List.length b = n) full
    /\ List.length full = List.length l / n
    /\ (List.length l mod n = 0 -> tail = [])
    /\ (List.length l mod n <> 0 ->
        exists t, tail = [t] /\ List.length t = List.length l mod n).
Proof.
  intros n l Hn.
  remember (List.length l) as m eqn:Hm.
  revert l Hm. induction m as [m IH] using lt_wf_ind. intros l Hm.
  destruct (Nat.lt_ge_cases m n) as [Hlt|Hge].
  - rewrite Nat.div_small, Nat.mod_small by trivial.
    destruct l as [|a l].
    + exists [], []. simpl in Hm. subst m.
      repeat split; trivial. intros H; congruence.
    + exists [], [a :: l]. rewrite chunks_small by (rewrite <- Hm; simpl in Hm; lia).
      repeat split; trivial.
      * intros H. simpl in Hm. lia.
      * intros _. exists (a :: l). split; [reflexivity|]. now rewrite Hm.
  - assert (Hl : l <> []) by (intros ->; simpl in Hm; lia).
    destruct (IH (m - n) ltac:(lia) (skipn n l)) as (full & tail & Hc & Hf & Hlen & H0 & H1).
    { rewrite length_skipn. lia. }
    assert (Hdiv : m / n = S ((m - n) / n)).
    { replace m with ((m - n) + 1 * n) at 1 by lia.
      rewrite Nat.div_add by lia. lia. }
    assert (Hmod : m mod n = (m - n) mod n).
    { replace m with ((m - n) + 1 * n) at 1 by lia.
      apply Nat.Div0.mod_add. }
    exists (firstn n l :: full), tail.
    rewrite chunks_step, Hc by trivial.
    repeat split.
    + constructor; trivial. rewrite length_firstn. lia.
    + simpl. rewrite Hlen. now rewrite Hdiv.
    + rewrite Hmod. exact H0.
    + rewrite Hmod. exact H1.
Qed.

(** There are ceil(length / n) chunks. *)
Lemma length_chunks : forall n l,
  0 < n -> List.length (chunks n l) = (List.length l + n - 1) / n.
Proof.
  intros n l Hn.
  destruct (chunks_shape n l Hn) as (full & tail & Hc & _ & Hlen & H0 & H1).
  rewrite Hc, length_app, Hlen.
  pose proof (Nat.div_mod_eq (List.length l) n) as Hdm.
  pose proof (Nat.mod_upper_bound (List.length l) n ltac:(lia)) as Hub.
  set (q := List.length l / n) in *. set (r := List.length l mod n) in *.
  destruct (Nat.eq_dec r 0) as [Hr|Hr].
  - rewrite (H0 Hr). cbn [List.length].
    apply (Nat.div_unique _ _ _ (n - 1)); lia.
  - destruct (H1 Hr) as (t & -> & _). cbn [List.length].
    apply (Nat.div_unique _ _ _ (r - 1)); lia.
Qed.

End ChunkFacts.

(** ** Lemmas on traces and on the two effectful helpers *)

Lemma collection_app : forall t1 t2, collection (t1 ++ t2) = collection t1 ++ collection t2.
Proof. intros; apply flat_map_app. Qed.

Lemma calls_app : forall t1 t2, calls (t1 ++ t2) = calls t1 ++ calls t2.
Proof. intros; apply flat_map_app. Qed.

Lemma logged_app : forall t1 t2, logged (t1 ++ t2) = logged t1 ++ logged t2.
Proof. intros; apply flat_map_app. Qed.

Lemma insertCalls_app : forall t1 t2, insertCalls (t1 ++ t2) = insertCalls t1 + insertCalls t2.
Proof. intros; unfold insertCalls; now rewrite flat_map_app, length_app. Qed.

Lemma writeCalls_app : forall t1 t2, writeCalls (t1 ++ t2) = writeCalls t1 + writeCalls t2.
Proof. intros; unfold writeCalls; now rewrite flat_map_app, length_app. Qed.

Lemma trace_update : forall env name k w,
  trace (updateLastProcessedPlaceID env name k w)
  = trace w ++ writeEvents name k (WriteFile env (writeCalls (trace w)) name k).
Proof.
  intros. unfold updateLastProcessedPlaceID, writeEvents.
  destruct (WriteFile env _ name k); cbn [emit trace setFile]; trivial.
  now rewrite <- app_assoc.
Qed.

Lemma files_update_written : forall env name k w,
  WriteFile env (writeCalls (trace w)) name k = Written ->
  files (updateLastProcessedPlaceID env name k w) name = Some k.
Proof.
  intros env name k w H. unfold updateLastProcessedPlaceID. rewrite H.
  cbn [emit files setFile]. now rewrite String.eqb_refl.
Qed.

Lemma collection_update : forall env name k w,
  collection (trace (updateLastProcessedPlaceID env name k w)) = collection (trace w).
Proof.
  intros. rewrite trace_update, collection_app. unfold writeEvents.
  destruct (WriteFile env _ name k); cbn; now rewrite app_nil_r.
Qed.

Lemma insertCalls_update : forall env name k w,
  insertCalls (trace (updateLastProcessedPlaceID env name k w)) = insertCalls (trace w).
Proof.
  intros. rewrite trace_update, insertCalls_app. unfold writeEvents.
  destruct (WriteFile env _ name k); cbn; lia.
Qed.

Lemma writeCalls_update : forall env name k w,
  writeCalls (trace (updateLastProcessedPlaceID env name k w)) = S (writeCalls (trace w)).
Proof.
  intros. rewrite trace_update, writeCalls_app. unfold writeEvents.
  destruct (WriteFile env _ name k); cbn; lia.
Qed.

Lemma calls_update : forall env name k w,
  calls (trace (updateLastProcessedPlaceID env name k w))
  = calls (trace w) ++ [CallWrite name k].
Proof.
  intros. rewrite trace_update, calls_app. unfold writeEvents.
  destruct (WriteFile env _ name k); reflexivity.
Qed.

Lemma logged_update : forall env name k w,
  logged (trace (updateLastProcessedPlaceID env name k w))
  = logged (trace w)
    ++ match WriteFile env (writeCalls (trace w)) name k with
       | Written => []
       | WriteFailed err _ => [("Error updating progress file: " ++ err)%string]
       end.
Proof.
  intros. rewrite trace_update, logged_app. unfold writeEvents.
  destruct (WriteFile env _ name k); reflexivity.
Qed.

Lemma lastKey_snoc : forall b place, lastKey (b ++ [place]) = PlaceID place.
Proof.
  intros. unfold lastKey.
  rewrite length_app, Nat.add_sub, nth_error_app2, Nat.sub_diag by lia.
  reflexivity.
Qed.

Lemma batchSize_pos : 0 < batchSize.
Proof. unfold batchSize; lia. Qed.

(** ** Lemmas on the mapper *)

Lemma mapPlace_wide : forall env record,
  15 <= List.length record -> exists place, mapPlace env record = Val place.
Proof.
  intros env record H.
  do 15 (destruct record as [|? record]; [simpl in H; lia|]).
  eexists; reflexivity.
Qed.

Lemma mapPlace_narrow : forall env record,
  List.length record < 15 ->
  exists i, mapPlace env record = Throw (IndexOutOfRange i (List.length record)).
Proof.
  intros env record H.
  do 15 (destruct record as [|? record]; [eexists; reflexivity|]).
  simpl in H; lia.
Qed.

Lemma mapPlace_fields : forall env record place,
  mapPlace env record = Val place ->
  15 <= List.length record
  /\ PlaceID place = nth 0 record ""
  /\ Location_ place = Some {| Type_ := "Point";
                               Coordinates := (parseFloat env (nth 10 record ""),
                                               parseFloat env (nth 9 record "")) |}
  /\ Suggestions place = [] /\ Reviews place = []
  /\ MergedAt place = None /\ IsMerged place = false.
Proof.
  intros env record place H.
  do 15 (destruct record as [|? record]; [discriminate H|]).
  inversion H; subst; cbn. repeat split; trivial. lia.
Qed.

(** ** Lemmas on the loop *)

Section Loop.

Variables (env : Env) (name lastProcessedID : string).

Local Abbreviation step := (body env name lastProcessedID).
Local Abbreviation run := (loop env name lastProcessedID).

Lemma body_skip : forall st r k,
  startProcessing st = false -> nth_error r 0 = Some k ->
  String.eqb k lastProcessedID = false ->
  step st r = Continue st.
Proof.
  intros st r k Hs Hk Hne. unfold body, index, bind.
  now rewrite Hs, Hk, Hne.
Qed.

Lemma body_match : forall st r k,
  startProcessing st = false -> nth_error r 0 = Some k ->
  String.eqb k lastProcessedID = true ->
  step st r = Continue {| startProcessing := true; batch := batch st; world := world st |}.
Proof.
  intros st r k Hs Hk He. unfold body, index, bind.
  now rewrite Hs, Hk, He.
Qed.

Lemma body_map : forall st r,
  startProcessing st = true ->
  step st r =
  match mapPlace env r with
  | Throw p => Stop (Panicked p) (world st)
  | Val place =>
      if Nat.leb batchSize (List.length (batch st ++ [place])) then
        match insertMany env (batch st ++ [place]) (world st) with
        | (Some err, w1) => Stop (Returned (Some err)) w1
        | (None, w1) =>
            Continue {| startProcessing := true;
                        batch := [];
                        world := updateLastProcessedPlaceID env name (PlaceID place) w1 |}
        end
      else Continue {| startProcessing := true;
                       batch := batch st ++ [place];
                       world := world st |}
  end.
Proof.
  intros st r Hs. unfold body. rewrite Hs. reflexivity.
Qed.

Lemma insertRemaining_commit : forall st,
  List.length (batch st) <= batchSize ->
  insertRemaining env name st = commitAll env name (chunks batchSize (batch st)) (world st).
Proof.
  intros st Hlen. unfold insertRemaining.
  destruct (batch st) as [|p b] eqn:Hb; [reflexivity|].
  rewrite chunks_small by (cbn [List.length] in *; lia).
  replace (Nat.ltb 0 (List.length (p :: b))) with true by reflexivity.
  cbn [commitAll].
  destruct (insertMany env (p :: b) (world st)) as [[err|] w1]; trivial.
  unfold lastKey.
  destruct (nth_error (p :: b) (List.length (p :: b) - 1)) eqn:Hn; trivial.
  apply nth_error_None in Hn. cbn [List.length] in Hn. lia.
Qed.

(** While every record maps, the loop is the committer run over the chunks
    of what is buffered followed by the mapped records. *)
Lemma loop_commits : forall rows places st,
  Forall2 (fun r place => mapPlace env r = Val place) rows places ->
  startProcessing st = true ->
  List.length (batch st) < batchSize ->
  run (map Row rows) st
  = commitAll env name (chunks batchSize (batch st ++ places)) (world st).
Proof.
  intros rows places st HF. revert st.
  induction HF as [|r place rows places Hmap HF IH]; intros st Hs Hlen.
  - rewrite app_nil_r. apply insertRemaining_commit. lia.
  - cbn [map]. cbn [loop].
    rewrite (body_map st r Hs), Hmap.
    destruct (Nat.leb batchSize (List.length (batch st ++ [place]))) eqn:Hfull.
    + apply Nat.leb_le in Hfull. rewrite length_app in Hfull. cbn [List.length] in Hfull.
      replace (batch st ++ place :: places) with ((batch st ++ [place]) ++ places)
        by (now rewrite <- app_assoc).
      rewrite chunks_app_full
        by (try apply batchSize_pos; rewrite length_app; cbn [List.length]; lia).
      cbn [commitAll].
      destruct (insertMany env (batch st ++ [place]) (world st)) as [[err|] w1]; trivial.
      rewrite lastKey_snoc.
      rewrite IH; trivial. apply batchSize_pos.
    + apply Nat.leb_gt in Hfull. rewrite IH; trivial.
      cbn [batch]. now rewrite <- app_assoc.
Qed.

(** Records up to and including the first one that carries the checkpoint
    key leave the loop state as it was, except for the flag. *)
Lemma loop_resume : forall rows b w,
  Forall (fun r => r <> []) rows ->
  run (map Row rows) {| startProcessing := false; batch := b; world := w |}
  = run (map Row (afterKey lastProcessedID rows))
      {| startProcessing := true; batch := b; world := w |}.
Proof.
  intros rows b w HF.
  induction HF as [|r rows Hr HF IH].
  - reflexivity.
  - destruct r as [|k r]; [congruence|].
    cbn [map afterKey loop].
    destruct (String.eqb k lastProcessedID) eqn:Hk.
    + rewrite (body_match {| startProcessing := false; batch := b; world := w |}
                 (k :: r) k eq_refl eq_refl Hk).
      reflexivity.
    + rewrite (body_skip {| startProcessing := false; batch := b; world := w |}
                 (k :: r) k eq_refl eq_refl Hk).
      exact IH.
Qed.

Lemma loop_advance : forall pre reader st st1,
  advance env name lastProcessedID pre st = Some st1 ->
  run (map Row pre ++ reader) st = run reader st1.
Proof.
  induction pre as [|r pre IH]; intros reader st st1 H.
  - inversion H; reflexivity.
  - cbn [advance] in H. cbn [map app]. cbn [loop].
    destruct (step st r); [|discriminate].
    now apply IH.
Qed.

End Loop.

(** ** Lemmas on the committer *)

Section Committer.

Variables (env : Env) (name : string).

Lemma insertMany_eq : forall b w,
  insertMany env b w
  = (InsertMany env (insertCalls (trace w)) b,
     emit (EvInsert b (InsertMany env (insertCalls (trace w)) b)) w).
Proof. reflexivity. Qed.

Lemma commitAll_all_ok : forall batches w,
  (forall i b, InsertMany env i b = None) ->
  exists w1,
    commitAll env name batches w = (Returned None, w1)
    /\ collection (trace w1) = collection (trace w) ++ batches
    /\ insertCalls (trace w1) = insertCalls (trace w) + List.length batches.
Proof.
  intros batches w Hok. revert w.
  induction batches as [|b batches IH]; intros w.
  - exists w. cbn. rewrite app_nil_r. repeat split; lia.
  - cbn [commitAll]. rewrite insertMany_eq, Hok.
    destruct (IH (updateLastProcessedPlaceID env name (lastKey b) (emit (EvInsert b None) w)))
      as (w1 & Hrun & Hcol & Hcalls).
    exists w1. split; [exact Hrun|].
    rewrite Hcol, Hcalls, collection_update, insertCalls_update.
    cbn [emit trace]. rewrite collection_app, insertCalls_app. cbn.
    rewrite <- app_assoc. split; [reflexivity|lia].
Qed.

(** The committer when the insert of the batch at position [m] is the
    first one to fail. *)
Lemma commitAll_fails_at : forall m batches w err,
  m < List.length batches ->
  (forall i, i < m -> InsertMany env (insertCalls (trace w) + i) (nth i batches []) = None) ->
  InsertMany env (insertCalls (trace w) + m) (nth m batches []) = Some err ->
  exists w1,
    commitAll env name batches w = (Returned (Some err), w1)
    /\ collection (trace w1) = collection (trace w) ++ firstn m batches
    /\ calls (trace w1)
       = calls (trace w) ++ commitCalls name (firstn m batches)
           ++ [CallInsert (nth m batches []) (Some err)]
    /\ (m = 0 -> forall n, files w1 n = files w n)
    /\ (forall k, m = S k ->
        WriteFile env (writeCalls (trace w) + k) name (lastKey (nth k batches [])) = Written ->
        files w1 name = Some (lastKey (nth k batches []))).
Proof.
  induction m as [|m IH]; intros batches w err Hlen Hok Hfail.
  - destruct batches as [|b batches]; [cbn in Hlen; lia|].
    rewrite Nat.add_0_r in Hfail. cbn [nth] in Hfail.
    exists (emit (EvInsert b (Some err)) w).
    cbn [commitAll firstn nth]. rewrite insertMany_eq, Hfail.
    cbn [emit trace files]. rewrite collection_app, calls_app. cbn.
    rewrite app_nil_r. repeat split; trivial. intros k Hk; discriminate.
  - destruct batches as [|b batches]; [cbn in Hlen; lia|].
    cbn [List.length] in Hlen.
    pose proof (Hok 0 ltac:(lia)) as Hb. rewrite Nat.add_0_r in Hb. cbn [nth] in Hb.
    set (w0 := updateLastProcessedPlaceID env name (lastKey b) (emit (EvInsert b None) w)).
    assert (Hic : insertCalls (trace w0) = S (insertCalls (trace w))).
    { unfold w0. rewrite insertCalls_update. cbn [emit trace].
      rewrite insertCalls_app. cbn. lia. }
    assert (Hwc : writeCalls (trace w0) = S (writeCalls (trace w))).
    { unfold w0. rewrite writeCalls_update. cbn [emit trace].
      rewrite writeCalls_app. cbn. lia. }
    destruct (IH batches w0 err) as (w1 & Hrun & Hcol & Hcalls & Hf0 & HfS).
    + lia.
    + intros i Hi. rewrite Hic. specialize (Hok (S i) ltac:(lia)).
      rewrite Nat.add_succ_r in Hok. exact Hok.
    + rewrite Hic. rewrite Nat.add_succ_r in Hfail. exact Hfail.
    + exists w1. cbn [commitAll firstn nth]. rewrite insertMany_eq, Hb. fold w0.
      split; [exact Hrun|].
      split; [|split; [|split]].
      * rewrite Hcol. unfold w0. rewrite collection_update. cbn [emit trace].
        rewrite collection_app. cbn. now rewrite <- app_assoc.
      * rewrite Hcalls. unfold w0. rewrite calls_update. cbn [emit trace].
        rewrite calls_app. cbn. now rewrite <- !app_assoc.
      * intros Hm; discriminate.
      * intros k Hk Hw. injection Hk as <-.
        destruct m as [|m].
        -- rewrite (Hf0 eq_refl). unfold w0. apply files_update_written.
           cbn [emit trace]. rewrite writeCalls_app. cbn.
           rewrite Nat.add_0_r in Hw. now rewrite Nat.add_0_r.
        -- apply (HfS m eq_refl). rewrite Hwc.
           rewrite Nat.add_succ_r in Hw. exact Hw.
Qed.

End Committer.

Lemma wide_rows_map : forall env rows,
  Forall (fun r => 15 <= List.length r) rows ->
  exists places, Forall2 (fun r place => mapPlace env r = Val place) rows places.
Proof.
  intros env rows H. induction H as [|r rows Hr _ (places & IH)].
  - exists []. constructor.
  - destruct (mapPlace_wide env r Hr) as (place & Hp).
    exists (place :: places). now constructor.
Qed.

Lemma Forall2_In_left : forall (A B : Type) (R : A -> B -> Prop) l1 l2 a,
  Forall2 R l1 l2 -> In a l1 -> exists b, In b l2 /\ R a b.
Proof.
  intros A B R l1 l2 a H. induction H as [|x y l1 l2 Hxy _ IH]; intros Hin.
  - destruct Hin.
  - destruct Hin as [->|Hin].
    + exists y. split; [now left|trivial].
    + destruct (IH Hin) as (b & Hb & HR). exists b. split; [now right|trivial].
Qed.

(** A run from scratch in which every insert succeeds and every record
    maps: the chunks of the mapped records are inserted, in order. *)
Lemma fresh_run_commits_chunks :
  forall env name csvFile mongoURI dbName collectionName w header rows places,
    Connect env mongoURI = None ->
    Open env csvFile = Ok (Row header :: map Row rows) ->
    ReadFileFault env name = None ->
    files w name = None ->
    (forall i b, InsertMany env i b = None) ->
    Forall2 (fun r place => mapPlace env r = Val place) rows places ->
    exists w1,
      processCSV env name csvFile mongoURI dbName collectionName w = (Returned None, w1)
      /\ collection (trace w1) = collection (trace w) ++ chunks batchSize places
      /\ insertCalls (trace w1)
         = insertCalls (trace w) + List.length (chunks batchSize places).
Proof.
  intros env name csvFile mongoURI dbName collectionName w header rows places
    Hconn Hopen Hfault Hfile Hins Hmap.
  unfold processCSV, getLastProcessedPlaceID.
  rewrite Hconn, Hopen, Hfault, Hfile.
  replace (String.eqb "" "") with true by reflexivity.
  cbn [startProcessing batch].
  rewrite (loop_commits env name "" rows places); trivial;
    [|cbn [batch List.length]; apply batchSize_pos].
  cbn [batch world app].
  destruct (commitAll_all_ok env name (chunks batchSize places)
              (emit (EvPrint ("Header: " ++ showRecord header)%string) w) Hins)
    as (w1 & Hrun & Hcol & Hcalls).
  exists w1. split; [exact Hrun|].
  rewrite Hcol, Hcalls. cbn [emit trace].
  rewrite collection_app, insertCalls_app. cbn.
  rewrite app_nil_r. split; [reflexivity|lia].
Qed.

(** ** Lemmas on the progress file name and on [main] *)

Lemma splitFrom_dot : forall s,
  exists pieces, Strings.splitFrom "." 0 s = beforeDot s :: pieces.
Proof.
  induction s as [|c s (pieces & IH)].
  - exists []. reflexivity.
  - cbn [Strings.splitFrom beforeDot prefix].
    destruct (ascii_dec "." c) as [<-|Hc].
    + assert (Hp : prefix "" s = true) by (destruct s; reflexivity).
      rewrite Hp. cbn. eexists; reflexivity.
    + assert (Hneq : Ascii.eqb c "." = false)
        by (apply Ascii.eqb_neq; congruence).
      rewrite Hneq, IH. eexists; reflexivity.
Qed.

Lemma deriveProgressFile_val : forall csvFile,
  deriveProgressFile csvFile = Val (beforeDot csvFile ++ progressFile)%string.
Proof.
  intros csvFile. unfold deriveProgressFile, Strings.Split.
  destruct (splitFrom_dot csvFile) as (pieces & ->). reflexivity.
Qed.

Lemma list_ascii_of_append : forall s t,
  list_ascii_of_string (s ++ t)%string = list_ascii_of_string s ++ list_ascii_of_string t.
Proof. induction s as [|c s IH]; intros t; cbn; [|rewrite IH]; reflexivity. Qed.

Lemma append_inv_tail : forall s t u, (s ++ u)%string = (t ++ u)%string -> s = t.
Proof.
  intros s t u H.
  apply (f_equal list_ascii_of_string) in H.
  rewrite !list_ascii_of_append in H. apply app_inv_tail in H.
  rewrite <- (string_of_list_ascii_of_string s), <- (string_of_list_ascii_of_string t).
  now rewrite H.
Qed.

Lemma main_configured : forall env csvFile mongoURI dbName collectionName w,
  configured env csvFile mongoURI dbName collectionName ->
  main env w
  = match processCSV env (beforeDot csvFile ++ progressFile)%string
            csvFile mongoURI dbName collectionName w with
    | (Panicked _, w1) => (2, w1)
    | (Returned (Some err), w1) => fatal ("Error processing CSV: " ++ err)%string w1
    | (Returned None, w1) => (0, emit (EvPrint "CSV data inserted successfully!") w1)
    end.
Proof.
  intros env csvFile mongoURI dbName collectionName w
    (Hdot & Hcsv & Hcsv0 & Huri & Huri0 & Hdb & Hdb0 & Hcoll & Hcoll0).
  unfold main. rewrite Hdot, Hcsv, Huri, Hdb, Hcoll.
  apply String.eqb_neq in Hcsv0, Huri0, Hdb0, Hcoll0.
  rewrite Hcsv0, Huri0, Hdb0, Hcoll0, deriveProgressFile_val. reflexivity.
Qed.

(** ** Lemmas on the resume point *)

Lemma afterKey_no_match : forall key rows,
  Forall (fun r => nth_error r 0 <> Some key) rows -> afterKey key rows = [].
Proof.
  intros key rows H. induction H as [|r rows Hr _ IH]; [reflexivity|].
  cbn [afterKey]. destruct r as [|k r]; trivial.
  destruct (String.eqb k key) eqn:Hk; trivial.
  apply String.eqb_eq in Hk. subst k. cbn in Hr. congruence.
Qed.

Lemma afterKey_first_match : forall key before matching rest,
  Forall (fun r => nth_error r 0 <> Some key) before ->
  nth_error matching 0 = Some key ->
  afterKey key (before ++ matching :: rest) = rest.
Proof.
  intros key before matching rest H Hm.
  induction H as [|r before Hr _ IH].
  - destruct matching as [|k m]; [discriminate|].
    cbn in Hm. injection Hm as ->. cbn. now rewrite String.eqb_refl.
  - cbn [app afterKey]. destruct r as [|k r]; trivial.
    destruct (String.eqb k key) eqn:Hk; trivial.
    apply String.eqb_eq in Hk. subst k. cbn in Hr. congruence.
Qed.

(** [processCSV] once the store is connected, the file open and the
    checkpoint read. *)
Lemma processCSV_started :
  forall env name csvFile mongoURI dbName collectionName w header rest key,
    Connect env mongoURI = None ->
    Open env csvFile = Ok (Row header :: rest) ->
    getLastProcessedPlaceID env name w = Ok key ->
    processCSV env name csvFile mongoURI dbName collectionName w
    = loop env name key rest
        {| startProcessing := String.eqb key "";
           batch := [];
           world := emit (EvPrint ("Header: " ++ showRecord header)%string) w |}.
Proof.
  intros env name csvFile mongoURI dbName collectionName w header rest key Hc Ho Hk.
  unfold processCSV. rewrite Hc, Ho, Hk. reflexivity.
Qed.

Lemma processCSV_pending :
  forall env name csvFile mongoURI dbName collectionName w header rows key,
    Connect env mongoURI = None ->
    Open env csvFile = Ok (Row header :: map Row rows) ->
    getLastProcessedPlaceID env name w = Ok key ->
    Forall (fun r => r <> []) rows ->
    processCSV env name csvFile mongoURI dbName collectionName w
    = loop env name key (map Row (pending key rows))
        {| startProcessing := true;
           batch := [];
           world := emit (EvPrint ("Header: " ++ showRecord header)%string) w |}.
Proof.
  intros env name csvFile mongoURI dbName collectionName w header rows key Hc Ho Hk Hne.
  rewrite (processCSV_started _ _ _ _ _ _ _ _ _ _ Hc Ho Hk).
  unfold pending. destruct (String.eqb key ""); [reflexivity|].
  now apply loop_resume.
Qed.

(** ** Lemmas on runs that differ in the fate of the checkpoint writes *)

Lemma inserts_app : forall t1 t2, inserts (t1 ++ t2) = inserts t1 ++ inserts t2.
Proof. intros; apply flat_map_app. Qed.

Lemma insertCalls_inserts : forall tr, insertCalls tr = List.length (inserts tr).
Proof.
  induction tr as [|e tr IH]; [reflexivity|].
  change (e :: tr) with ([e] ++ tr).
  rewrite insertCalls_app, inserts_app, length_app, IH.
  destruct e; reflexivity.
Qed.

Lemma inserts_update : forall env name k w,
  inserts (trace (updateLastProcessedPlaceID env name k w)) = inserts (trace w).
Proof.
  intros. rewrite trace_update, inserts_app. unfold writeEvents.
  destruct (WriteFile env _ name k); cbn; now rewrite app_nil_r.
Qed.

Section WriteFate.

Variables (env : Env) (writeFile : nat -> string -> string -> WriteResult).
Variables (name lastProcessedID : string).

Local Abbreviation env2 := (withWriteFile env writeFile).

Lemma insertMany_alike : forall b w1 w2,
  inserts (trace w1) = inserts (trace w2) ->
  fst (insertMany env b w1) = fst (insertMany env2 b w2)
  /\ inserts (trace (snd (insertMany env b w1)))
     = inserts (trace (snd (insertMany env2 b w2))).
Proof.
  intros b w1 w2 H. unfold insertMany. cbn [fst snd emit trace InsertMany withWriteFile].
  rewrite !insertCalls_inserts, !inserts_app, H. split; reflexivity.
Qed.

Lemma body_alike : forall st1 st2 r,
  alike st1 st2 ->
  match body env name lastProcessedID st1 r, body env2 name lastProcessedID st2 r with
  | Continue a, Continue b => alike a b
  | Stop o1 w1, Stop o2 w2 => o1 = o2 /\ inserts (trace w1) = inserts (trace w2)
  | _, _ => False
  end.
Proof.
  intros st1 st2 r (Hs & Hb & Hi). unfold body.
  rewrite <- Hs, <- Hb.
  destruct (startProcessing st1) eqn:Hst; cbn [negb].
  - change (mapPlace env2 r) with (mapPlace env r).
    destruct (mapPlace env r) as [place|p]; [|now split].
    destruct (Nat.leb batchSize (List.length (batch st1 ++ [place]))).
    + destruct (insertMany_alike (batch st1 ++ [place]) (world st1) (world st2) Hi)
        as (Hfst & Hsnd).
      destruct (insertMany env (batch st1 ++ [place]) (world st1)) as [e1 u1].
      destruct (insertMany env2 (batch st1 ++ [place]) (world st2)) as [e2 u2].
      cbn [fst snd] in Hfst, Hsnd. subst e2.
      destruct e1 as [err|]; [now split|].
      repeat split; cbn [startProcessing batch world]; trivial.
      now rewrite !inserts_update.
    + repeat split; trivial.
  - destruct (index r 0) as [k|p]; cbn [bind]; [|now split].
    destruct (String.eqb k lastProcessedID); repeat split; trivial; congruence.
Qed.

Lemma insertRemaining_alike : forall st1 st2,
  alike st1 st2 ->
  fst (insertRemaining env name st1) = fst (insertRemaining env2 name st2)
  /\ inserts (trace (snd (insertRemaining env name st1)))
     = inserts (trace (snd (insertRemaining env2 name st2))).
Proof.
  intros st1 st2 (Hs & Hb & Hi). unfold insertRemaining. rewrite <- Hb.
  destruct (Nat.ltb 0 (List.length (batch st1))); [|now split].
  destruct (insertMany_alike (batch st1) (world st1) (world st2) Hi) as (Hfst & Hsnd).
  destruct (insertMany env (batch st1) (world st1)) as [e1 u1].
  destruct (insertMany env2 (batch st1) (world st2)) as [e2 u2].
  cbn [fst snd] in Hfst, Hsnd. subst e2.
  destruct e1 as [err|]; [now split|].
  destruct (nth_error (batch st1) (List.length (batch st1) - 1)); cbn [fst snd].
  - now rewrite !inserts_update.
  - now split.
Qed.

Lemma loop_alike : forall reader st1 st2,
  alike st1 st2 ->
  fst (loop env name lastProcessedID reader st1)
  = fst (loop env2 name lastProcessedID reader st2)
  /\ inserts (trace (snd (loop env name lastProcessedID reader st1)))
     = inserts (trace (snd (loop env2 name lastProcessedID reader st2))).
Proof.
  induction reader as [|[record|err] reader IH]; intros st1 st2 H; cbn [loop].
  - now apply insertRemaining_alike.
  - pose proof (body_alike st1 st2 record H) as Hbody.
    destruct (body env name lastProcessedID st1 record) as [a|o1 w1];
      destruct (body env2 name lastProcessedID st2 record) as [b|o2 w2];
      try contradiction.
    + now apply IH.
    + destruct Hbody as [-> Hi]. now split.
  - destruct (String.eqb err "EOF").
    + now apply insertRemaining_alike.
    + destruct H as (_ & _ & Hi). now split.
Qed.

End WriteFate.

Lemma processCSV_alike :
  forall env writeFile name csvFile mongoURI dbName collectionName w,
    fst (processCSV env name csvFile mongoURI dbName collectionName w)
    = fst (processCSV (withWriteFile env writeFile) name
             csvFile mongoURI dbName collectionName w)
    /\ inserts (trace (snd (processCSV env name csvFile mongoURI dbName collectionName w)))
       = inserts (trace (snd (processCSV (withWriteFile env writeFile) name
                                csvFile mongoURI dbName collectionName w))).
Proof.
  intros env writeFile name csvFile mongoURI dbName collectionName w.
  unfold processCSV, getLastProcessedPlaceID.
  cbn [withWriteFile Connect Open ReadFileFault].
  destruct (Connect env mongoURI); [now split|].
  destruct (Open env csvFile) as [reader|err]; [|now split].
  destruct (ReadFileFault env name); [now split|].
  destruct (files w name);
    (destruct reader as [|[header|err] rest]; [now split| |now split]);
    apply loop_alike; repeat split.
Qed.

Lemma sample_rows_map : forall env keys,
  ParseFloat env = Sample.parse ->
  Forall2 (fun r place => mapPlace env r = Val place)
    (map Sample.row keys) (map Sample.place keys).
Proof.
  intros env keys H. induction keys as [|k keys IH]; cbn [map]; constructor; trivial.
  unfold mapPlace, parseFloat. rewrite H. vm_compute. reflexivity.
Qed.

(** ** Concrete runs *)

Example run_of_2001_rows :
  let '(status, w) := main (Sample.env (Sample.rowsUpTo 2001)) Sample.noFiles in
  status = 0
  /\ map (@List.length Place) (collection (trace w)) = [1000; 1000; 1]
  /\ map lastKey (collection (trace w)) = ["1000"; "2000"; "2001"]
  /\ files w "places_progress.txt" = Some "2001".
Proof. vm_compute. repeat split. Qed.

Example resumed_run_of_1500_rows :
  let '(status, w) := main (Sample.env (Sample.rowsUpTo 1500))
                        (Sample.withFile "places_progress.txt" "1000") in
  status = 0
  /\ map (@List.length Place) (collection (trace w)) = [500]
  /\ map PlaceID (firstn 2 (List.concat (collection (trace w)))) = ["1001"; "1002"]
  /\ files w "places_progress.txt" = Some "1500".
Proof. vm_compute. repeat split. Qed.

Example second_insert_fails :
  let '(status, w) := main (Sample.unlucky 1500 1) Sample.noFiles in
  status = 1
  /\ map (@List.length Place) (collection (trace w)) = [1000]
  /\ insertCalls (trace w) = 2
  /\ logged (trace w) = ["Error updating progress file: permission denied";
                         "Error processing CSV: connection reset"].
Proof. vm_compute. repeat split. Qed.

(** ** Theorems *)

(** C6 (the code departs from the claim).  On the list text
    ['a', 'b', 'c'] the function returns the three elements a, 'b and 'c:
    the quotes are trimmed before the white space, so every element that
    follows ", " keeps its opening quote.  On the empty list text [] it
    returns one empty string, not an empty sequence. *)
Theorem parseArrayFromColumn_keeps_quotes :
  parseArrayFromColumn "['a', 'b', 'c']" = ["a"; "'b"; "'c"]
  /\ parseArrayFromColumn "['a','b','c']" = ["a"; "b"; "c"]
  /\ parseArrayFromColumn "[]" = [""].
Proof. repeat split; vm_compute; reflexivity. Qed.

(** C1.  A file of N data rows under its header, no progress file, every
    bulk insert succeeding: [processCSV] returns nil after ceil(N/1000)
    calls of InsertMany; the batches it inserted are all of size 1000 but
    for a last one of size N mod 1000 when that is not zero, and put end to
    end they are the N entities of the rows, in the order of the rows.  The
    rows are those the mapper accepts (at least 15 columns). *)
Theorem processCSV_commits_every_row_in_batches :
  forall env name csvFile mongoURI dbName collectionName w header rows,
    Connect env mongoURI = None ->
    Open env csvFile = Ok (Row header :: map Row rows) ->
    ReadFileFault env name = None ->
    files w name = None ->
    (forall i b, InsertMany env i b = None) ->
    Forall (fun r => 15 <= List.length r) rows ->
    let N := List.length rows in
    exists places batches w1,
      processCSV env name csvFile mongoURI dbName collectionName w = (Returned None, w1)
      /\ Forall2 (fun r place => mapPlace env r = Val place) rows places
      /\ collection (trace w1) = collection (trace w) ++ batches
      /\ List.concat batches = places
      /\ insertCalls (trace w1) = insertCalls (trace w) + (N + batchSize - 1) / batchSize
      /\ List.length batches = (N + batchSize - 1) / batchSize
      /\ exists full tail,
           batches = full ++ tail
           /\ Forall (fun b => List.length b = batchSize) full
           /\ List.length full = N / batchSize
           /\ (N mod batchSize = 0 -> tail = [])
           /\ (N mod batchSize <> 0 ->
               exists b, tail = [b] /\ List.length b = N mod batchSize).
Proof.
  intros env name csvFile mongoURI dbName collectionName w header rows
    Hconn Hopen Hfault Hfile Hins Hwide N.
  destruct (wide_rows_map env rows Hwide) as (places & Hmap).
  destruct (fresh_run_commits_chunks env name csvFile mongoURI dbName collectionName
              w header rows places Hconn Hopen Hfault Hfile Hins Hmap)
    as (w1 & Hrun & Hcol & Hcalls).
  assert (HN : List.length places = N)
    by (symmetry; eapply Forall2_length; eassumption).
  exists places, (chunks batchSize places), w1.
  rewrite <- HN.
  repeat (split; [first [assumption | apply concat_chunks, batchSize_pos
                        | apply length_chunks, batchSize_pos
                        | rewrite Hcalls, length_chunks by apply batchSize_pos;
                          reflexivity]|]).
  apply chunks_shape, batchSize_pos.
Qed.

Lemma processCSV_commits_every_row_in_batches_witness :
  exists w1,
    processCSV (Sample.env [Sample.row "k1"; Sample.row "k2"; Sample.row "k3"])
      "places_progress.txt" "places.csv" "mongodb://localhost:27017" "geo" "places"
      Sample.noFiles = (Returned None, w1)
    /\ insertCalls (trace w1) = 0 + (3 + batchSize - 1) / batchSize.
Proof.
  destruct (processCSV_commits_every_row_in_batches
              (Sample.env [Sample.row "k1"; Sample.row "k2"; Sample.row "k3"])
              "places_progress.txt" "places.csv" "mongodb://localhost:27017" "geo" "places"
              Sample.noFiles Sample.header
              [Sample.row "k1"; Sample.row "k2"; Sample.row "k3"]
              eq_refl eq_refl eq_refl eq_refl (fun _ _ => eq_refl))
    as (places & batches & w1 & Hrun & _ & _ & _ & Hcalls & _).
  - repeat constructor; cbn; lia.
  - exists w1. split; [exact Hrun|exact Hcalls].
Defined.

(** C2.  With an empty checkpoint every data record is processed.  With a
    checkpoint [key] the run is the run that processes exactly the records
    after the first record whose column 0 is [key]: that record and all
    records before it leave no effect, and when no record carries [key] no
    record is processed at all.  Processing records means mapping each of
    them and committing the entities in batches.  (A record of the csv
    reader has at least one field.) *)
Theorem resume_skips_through_checkpoint :
  forall env name csvFile mongoURI dbName collectionName w header rows key,
    Connect env mongoURI = None ->
    Open env csvFile = Ok (Row header :: map Row rows) ->
    getLastProcessedPlaceID env name w = Ok key ->
    Forall (fun r => r <> []) rows ->
    let w0 := emit (EvPrint ("Header: " ++ showRecord header)%string) w in
    let processing records :=
      loop env name key (map Row records)
        {| startProcessing := true; batch := []; world := w0 |} in
    let result := processCSV env name csvFile mongoURI dbName collectionName w in
    (key = "" -> result = processing rows)
    /\ (key <> "" ->
        forall before matching rest,
          rows = before ++ matching :: rest ->
          Forall (fun r => nth_error r 0 <> Some key) before ->
          nth_error matching 0 = Some key ->
          result = processing rest)
    /\ (key <> "" ->
        Forall (fun r => nth_error r 0 <> Some key) rows ->
        result = processing [])
    /\ (forall records places,
          Forall2 (fun r place => mapPlace env r = Val place) records places ->
          processing records = commitAll env name (chunks batchSize places) w0).
Proof.
  intros env name csvFile mongoURI dbName collectionName w header rows key
    Hc Ho Hk Hne w0 processing result.
  assert (Hrun : result = processing (pending key rows))
    by (apply processCSV_pending; assumption).
  repeat split.
  - intros ->. exact Hrun.
  - intros Hkey before matching rest -> Hbefore Hmatch.
    rewrite Hrun. unfold pending.
    apply String.eqb_neq in Hkey. rewrite Hkey.
    now rewrite afterKey_first_match.
  - intros Hkey Hnone. rewrite Hrun. unfold pending.
    apply String.eqb_neq in Hkey. rewrite Hkey.
    now rewrite afterKey_no_match.
  - intros records places Hmap. unfold processing.
    rewrite (loop_commits env name key records places _ Hmap); trivial.
    cbn [batch List.length]. apply batchSize_pos.
Qed.

Lemma resume_skips_through_checkpoint_witness :
  processCSV (Sample.env [Sample.row "k1"; Sample.row "k2"; Sample.row "k3"])
    "places_progress.txt" "places.csv" "mongodb://localhost:27017" "geo" "places"
    (Sample.withFile "places_progress.txt" "k2")
  = loop (Sample.env [Sample.row "k1"; Sample.row "k2"; Sample.row "k3"])
      "places_progress.txt" "k2" (map Row [Sample.row "k3"])
      {| startProcessing := true;
         batch := [];
         world := emit (EvPrint ("Header: " ++ showRecord Sample.header)%string)
                    (Sample.withFile "places_progress.txt" "k2") |}.
Proof.
  assert (Hne : Forall (fun r : list string => r <> [])
                  [Sample.row "k1"; Sample.row "k2"; Sample.row "k3"])
    by (repeat constructor; discriminate).
  destruct (resume_skips_through_checkpoint
              (Sample.env [Sample.row "k1"; Sample.row "k2"; Sample.row "k3"])
              "places_progress.txt" "places.csv" "mongodb://localhost:27017" "geo" "places"
              (Sample.withFile "places_progress.txt" "k2") Sample.header
              [Sample.row "k1"; Sample.row "k2"; Sample.row "k3"] "k2"
              eq_refl eq_refl eq_refl Hne)
    as (_ & Hafter & _).
  apply (Hafter ltac:(discriminate) [Sample.row "k1"] (Sample.row "k2") [Sample.row "k3"]).
  - reflexivity.
  - repeat constructor. discriminate.
  - reflexivity.
Defined.

(** C3, as the code has it.  Let the batches of a run be numbered from 0
    and let the insert of batch [m] be the first that fails.  Then
    [processCSV] returns that error; every checkpoint write of the run
    directly follows an insert that returned nil and carries the key of that
    batch's last entity, and no write follows the failed insert.  So the
    progress file is as it was at startup when m = 0; otherwise it holds the
    key of the last entity of batch m-1 provided the write for that batch
    went through (the write is best effort). *)
Theorem failed_insert_leaves_checkpoint_at_previous_batch :
  forall env name csvFile mongoURI dbName collectionName w header rows key places m err,
    trace w = [] ->
    Connect env mongoURI = None ->
    Open env csvFile = Ok (Row header :: map Row rows) ->
    getLastProcessedPlaceID env name w = Ok key ->
    Forall (fun r => r <> []) rows ->
    Forall2 (fun r place => mapPlace env r = Val place) (pending key rows) places ->
    let batches := chunks batchSize places in
    m < List.length batches ->
    (forall i, i < m -> InsertMany env i (nth i batches []) = None) ->
    InsertMany env m (nth m batches []) = Some err ->
    exists w1,
      processCSV env name csvFile mongoURI dbName collectionName w
      = (Returned (Some err), w1)
      /\ calls (trace w1)
         = commitCalls name (firstn m batches) ++ [CallInsert (nth m batches []) (Some err)]
      /\ (m = 0 -> files w1 name = files w name)
      /\ (forall k, m = S k ->
          WriteFile env k name (lastKey (nth k batches [])) = Written ->
          files w1 name = Some (lastKey (nth k batches []))).
Proof.
  intros env name csvFile mongoURI dbName collectionName w header rows key places m err
    Htr Hc Ho Hk Hne Hmap batches Hm Hok Hfail.
  rewrite (processCSV_pending _ _ _ _ _ _ _ _ _ _ Hc Ho Hk Hne).
  rewrite (loop_commits env name key _ places _ Hmap); trivial;
    [|cbn [batch List.length]; apply batchSize_pos].
  cbn [batch world app]. fold batches.
  set (w0 := emit (EvPrint ("Header: " ++ showRecord header)%string) w).
  assert (Hw0 : trace w0 = [EvPrint ("Header: " ++ showRecord header)%string])
    by (unfold w0; cbn [emit trace]; now rewrite Htr).
  destruct (commitAll_fails_at env name m batches w0 err Hm) as (w1 & Hrun & _ & Hcalls & H0 & HS).
  - intros i Hi. rewrite Hw0. cbn. now apply Hok.
  - rewrite Hw0. cbn. exact Hfail.
  - exists w1. rewrite Hw0 in Hcalls, HS. cbn in Hcalls, HS.
    repeat split; trivial.
    intros Hm0. now rewrite (H0 Hm0).
Qed.

Lemma failed_insert_leaves_checkpoint_at_previous_batch_witness :
  exists w1,
    processCSV (Sample.failing (map Sample.row (Sample.keysUpTo 1001)) 1)
      "places_progress.txt" "places.csv" "mongodb://localhost:27017" "geo" "places"
      Sample.noFiles
    = (Returned (Some "connection reset"), w1)
    /\ files w1 "places_progress.txt" = Some "1000".
Proof.
  assert (Hne : Forall (fun r : list string => r <> [])
                  (map Sample.row (Sample.keysUpTo 1001))).
  { apply Forall_forall. intros r Hr. apply in_map_iff in Hr.
    destruct Hr as (k & <- & _). discriminate. }
  destruct (failed_insert_leaves_checkpoint_at_previous_batch
              (Sample.failing (map Sample.row (Sample.keysUpTo 1001)) 1)
              "places_progress.txt" "places.csv" "mongodb://localhost:27017" "geo" "places"
              Sample.noFiles Sample.header
              (map Sample.row (Sample.keysUpTo 1001)) ""
              (map Sample.place (Sample.keysUpTo 1001)) 1 "connection reset"
              eq_refl eq_refl eq_refl eq_refl Hne
              (sample_rows_map
                 (Sample.failing (map Sample.row (Sample.keysUpTo 1001)) 1)
                 (Sample.keysUpTo 1001) eq_refl))
    as (w1 & Hrun & _ & _ & HfileS).
  - vm_compute. lia.
  - intros i Hi. destruct i; [reflexivity|lia].
  - reflexivity.
  - exists w1. split; [exact Hrun|].
    rewrite (HfileS 0 eq_refl eq_refl). vm_compute. reflexivity.
Defined.

(** C3 as stated fails: of 1500 rows the first batch is inserted, the
    write of its checkpoint fails and leaves no file, and the second insert
    fails.  The run returns the error of batch 2, yet the progress file does
    not hold the key 1000 of the last entity of batch 1: there is none. *)
Lemma failed_checkpoint_write_leaves_checkpoint_behind :
  fst (processCSV (Sample.unlucky 1500 1)
         "places_progress.txt" "places.csv" "mongodb://localhost:27017" "geo" "places"
         Sample.noFiles)
  = Returned (Some "connection reset")
  /\ map lastKey
       (collection
          (trace (snd (processCSV (Sample.unlucky 1500 1)
                         "places_progress.txt" "places.csv" "mongodb://localhost:27017"
                         "geo" "places" Sample.noFiles))))
     = ["1000"]
  /\ files (snd (processCSV (Sample.unlucky 1500 1)
                   "places_progress.txt" "places.csv" "mongodb://localhost:27017"
                   "geo" "places" Sample.noFiles)) "places_progress.txt"
     <> Some "1000".
Proof.
  repeat split; try (vm_compute; reflexivity).
  vm_compute. discriminate.
Qed.




(** C5, as the code has it.  The progress file of an input is the part of
    its name before the first dot followed by _progress.txt; inputs whose
    names differ before their first dot have distinct progress files. *)
Theorem progress_file_distinct_for_distinct_stems :
  forall a b,
    beforeDot a <> beforeDot b ->
    deriveProgressFile a = Val (beforeDot a ++ "_progress.txt")%string
    /\ deriveProgressFile b = Val (beforeDot b ++ "_progress.txt")%string
    /\ deriveProgressFile a <> deriveProgressFile b.
Proof.
  intros a b Hab. rewrite !deriveProgressFile_val.
  repeat split. intros H. injection H as H.
  apply append_inv_tail in H. contradiction.
Qed.

Lemma progress_file_distinct_for_distinct_stems_witness :
  deriveProgressFile "places.csv" <> deriveProgressFile "roads.csv".
Proof.
  apply (progress_file_distinct_for_distinct_stems "places.csv" "roads.csv").
  cbn. discriminate.
Defined.

(** C5 as stated fails: two distinct input names that agree before their
    first dot share one progress file. *)
Lemma distinct_inputs_share_progress_file :
  "places.csv" <> "places.tsv"
  /\ deriveProgressFile "places.csv" = deriveProgressFile "places.tsv".
Proof. split; [discriminate|reflexivity]. Qed.

(** C7.  [parseFloat] returns what [strconv.ParseFloat] parsed when it
    reports no error and 0.0 when it reports one.  A row whose coordinate
    columns do not parse is mapped all the same, with coordinates (0, 0),
    and a run from scratch commits its entity and returns nil. *)
Theorem unparsable_coordinates_become_zero :
  forall env name csvFile mongoURI dbName collectionName w header rows,
    Connect env mongoURI = None ->
    Open env csvFile = Ok (Row header :: map Row rows) ->
    ReadFileFault env name = None ->
    files w name = None ->
    (forall i b, InsertMany env i b = None) ->
    Forall (fun r => 15 <= List.length r) rows ->
    (forall val v, ParseFloat env val = (v, None) -> parseFloat env val = v)
    /\ (forall val v err, ParseFloat env val = (v, Some err) ->
        parseFloat env val = PrimFloat.zero)
    /\ exists w1,
         processCSV env name csvFile mongoURI dbName collectionName w = (Returned None, w1)
         /\ forall r v9 e9 v10 e10,
              In r rows ->
              ParseFloat env (nth 9 r "") = (v9, Some e9) ->
              ParseFloat env (nth 10 r "") = (v10, Some e10) ->
              exists place,
                mapPlace env r = Val place
                /\ Location_ place
                   = Some {| Type_ := "Point";
                             Coordinates := (PrimFloat.zero, PrimFloat.zero) |}
                /\ In place (List.concat (collection (trace w1))).
Proof.
  intros env name csvFile mongoURI dbName collectionName w header rows
    Hconn Hopen Hfault Hfile Hins Hwide.
  assert (Hok : forall val v, ParseFloat env val = (v, None) -> parseFloat env val = v)
    by (intros val v H; unfold parseFloat; now rewrite H).
  assert (Hbad : forall val v err, ParseFloat env val = (v, Some err) ->
                                   parseFloat env val = PrimFloat.zero)
    by (intros val v err H; unfold parseFloat; now rewrite H).
  split; [exact Hok|]. split; [exact Hbad|].
  destruct (wide_rows_map env rows Hwide) as (places & Hmap).
  destruct (fresh_run_commits_chunks env name csvFile mongoURI dbName collectionName
              w header rows places Hconn Hopen Hfault Hfile Hins Hmap)
    as (w1 & Hrun & Hcol & _).
  exists w1. split; [exact Hrun|].
  intros r v9 e9 v10 e10 Hin H9 H10.
  destruct (Forall2_In_left _ _ _ _ _ _ Hmap Hin) as (place & Hplace & Hr).
  exists place. split; [exact Hr|].
  destruct (mapPlace_fields env r place Hr) as (_ & _ & Hloc & _).
  split.
  - rewrite Hloc, (Hbad _ _ _ H9), (Hbad _ _ _ H10). reflexivity.
  - rewrite Hcol, concat_app, concat_chunks by apply batchSize_pos.
    apply in_or_app. now right.
Qed.

Lemma unparsable_coordinates_become_zero_witness :
  parseFloat (Sample.env [Sample.row "k1"]) "north" = PrimFloat.zero.
Proof.
  destruct (unparsable_coordinates_become_zero
              (Sample.env [Sample.row "k1"])
              "places_progress.txt" "places.csv" "mongodb://localhost:27017" "geo" "places"
              Sample.noFiles Sample.header [Sample.row "k1"]
              eq_refl eq_refl eq_refl eq_refl (fun _ _ => eq_refl))
    as (_ & Hbad & _).
  - repeat constructor; cbn; lia.
  - apply (Hbad "north" PrimFloat.zero
             "strconv.ParseFloat: parsing north: invalid syntax").
    reflexivity.
Defined.

(** C8.  A record that reaches the mapper (the loop is still running when
    it is read and has started processing) with fewer than 15 columns makes
    [processCSV] panic with an index out of range, and the process ends
    with status 2.  The world is left as it was when the record was read:
    the record is not skipped over, and nothing that follows it in the file
    is read or processed. *)
Theorem short_record_aborts_the_run :
  forall env csvFile mongoURI dbName collectionName w header before record rest key st1,
    configured env csvFile mongoURI dbName collectionName ->
    Connect env mongoURI = None ->
    Open env csvFile = Ok (Row header :: map Row before ++ Row record :: rest) ->
    getLastProcessedPlaceID env (beforeDot csvFile ++ progressFile)%string w = Ok key ->
    advance env (beforeDot csvFile ++ progressFile)%string key before
      {| startProcessing := String.eqb key "";
         batch := [];
         world := emit (EvPrint ("Header: " ++ showRecord header)%string) w |}
    = Some st1 ->
    startProcessing st1 = true ->
    List.length record < 15 ->
    exists i,
      processCSV env (beforeDot csvFile ++ progressFile)%string
        csvFile mongoURI dbName collectionName w
      = (Panicked (IndexOutOfRange i (List.length record)), world st1)
      /\ main env w = (2, world st1)
      /\ fst (main env w) <> 0.
Proof.
  intros env csvFile mongoURI dbName collectionName w header before record rest key st1
    Hconf Hc Ho Hk Hadv Hstart Hshort.
  destruct (mapPlace_narrow env record Hshort) as (i & Hi).
  exists i.
  assert (Hrun : processCSV env (beforeDot csvFile ++ progressFile)%string
                   csvFile mongoURI dbName collectionName w
                 = (Panicked (IndexOutOfRange i (List.length record)), world st1)).
  { rewrite (processCSV_started _ _ _ _ _ _ _ _ _ _ Hc Ho Hk).
    rewrite (loop_advance _ _ _ _ _ _ _ Hadv).
    cbn [loop]. rewrite (body_map _ _ _ _ _ Hstart), Hi. reflexivity. }
  split; [exact Hrun|].
  rewrite (main_configured _ _ _ _ _ _ Hconf), Hrun.
  split; [reflexivity|]. cbn. discriminate.
Qed.

Lemma short_record_aborts_the_run_witness :
  fst (main (Sample.env [Sample.row "k1"; ["k2"; "[]"]; Sample.row "k3"]) Sample.noFiles) <> 0.
Proof.
  destruct (short_record_aborts_the_run
              (Sample.env [Sample.row "k1"; ["k2"; "[]"]; Sample.row "k3"])
              "places.csv" "mongodb://localhost:27017" "geo" "places"
              Sample.noFiles Sample.header
              [Sample.row "k1"] ["k2"; "[]"] [Row (Sample.row "k3")] ""
              {| startProcessing := true;
                 batch := [Sample.place "k1"];
                 world := emit (EvPrint ("Header: " ++ showRecord Sample.header)%string)
                            Sample.noFiles |})
    as (i & _ & _ & Hexit).
  - repeat split; discriminate.
  - reflexivity.
  - reflexivity.
  - reflexivity.
  - reflexivity.
  - reflexivity.
  - cbn. lia.
  - exact Hexit.
Defined.

(** C9.  [updateLastProcessedPlaceID] has no result; when the write fails
    it logs a line and nothing else.  Whether the writes of the progress
    file succeed or fail changes neither what [processCSV] returns nor any
    of its bulk inserts (the batches, their order, their results): the run
    with any other fate of the writes returns the same and inserts the
    same. *)
Theorem checkpoint_write_failure_does_not_abort :
  forall env writeFile name csvFile mongoURI dbName collectionName w,
    fst (processCSV env name csvFile mongoURI dbName collectionName w)
    = fst (processCSV (withWriteFile env writeFile) name
             csvFile mongoURI dbName collectionName w)
    /\ inserts (trace (snd (processCSV env name csvFile mongoURI dbName collectionName w)))
       = inserts (trace (snd (processCSV (withWriteFile env writeFile) name
                                csvFile mongoURI dbName collectionName w)))
    /\ (forall placeID w0,
          logged (trace (updateLastProcessedPlaceID env name placeID w0))
          = logged (trace w0)
            ++ match WriteFile env (writeCalls (trace w0)) name placeID with
               | Written => []
               | WriteFailed err _ => [("Error updating progress file: " ++ err)%string]
               end)
    /\ (forall placeID w0,
          inserts (trace (updateLastProcessedPlaceID env name placeID w0))
          = inserts (trace w0)).
Proof.
  intros env writeFile name csvFile mongoURI dbName collectionName w.
  destruct (processCSV_alike env writeFile name csvFile mongoURI dbName collectionName w)
    as [Hout Hins].
  repeat split; trivial.
  - intros. apply logged_update.
  - intros. apply inserts_update.
Qed.

(** C10.  An entity the mapper produces has a location of type Point whose
    coordinates are [parseFloat] of column 10 followed by [parseFloat] of
    column 9, is not merged, has no merge time, and has empty suggestions
    and reviews. *)
Theorem mapped_place_has_point_and_defaults :
  forall env record place,
    mapPlace env record = Val place ->
    exists column9 column10,
      nth_error record 9 = Some column9
      /\ nth_error record 10 = Some column10
      /\ Location_ place
         = Some {| Type_ := "Point";
                   Coordinates := (parseFloat env column10, parseFloat env column9) |}
      /\ IsMerged place = false
      /\ MergedAt place = None
      /\ Suggestions place = []
      /\ Reviews place = [].
Proof.
  intros env record place H.
  destruct (mapPlace_fields env record place H) as (Hlen & _ & Hloc & Hs & Hr & Hm & Hi).
  exists (nth 9 record ""), (nth 10 record "").
  repeat split; trivial; apply nth_error_nth'; lia.
Qed.

Lemma mapped_place_has_point_and_defaults_witness :
  Location_ (Sample.place "k1")
  = Some {| Type_ := "Point";
            Coordinates := (parseFloat (Sample.env []) "90.5",
                            parseFloat (Sample.env []) "23.75") |}.
Proof.
  destruct (mapped_place_has_point_and_defaults (Sample.env []) (Sample.row "k1")
              (Sample.place "k1") eq_refl)
    as (c9 & c10 & H9 & H10 & Hloc & _).
  cbn in H9, H10. injection H9 as <-. injection H10 as <-. exact Hloc.
Defined.

(** ** Further properties of the program *)

(** *** The shape of every run *)

Lemma files_update_other : forall env name k w n,
  n <> name -> files (updateLastProcessedPlaceID env name k w) n = files w n.
Proof.
  intros env name k w n Hn. unfold updateLastProcessedPlaceID.
  apply String.eqb_neq in Hn.
  destruct (WriteFile env _ name k); cbn [emit files setFile]; now rewrite Hn.
Qed.

Lemma runShape_idle : forall name w o,
  runShape name w (o, w).
Proof.
  intros name w o. exists [], []. cbn [fst snd commitCalls flat_map app].
  rewrite !app_nil_r. repeat split; trivial. now left.
Qed.

Lemma runShape_failed : forall name w b err,
  goodBatch b ->
  runShape name w (Returned (Some err), emit (EvInsert b (Some err)) w).
Proof.
  intros name w b err Hb. exists [], [CallInsert b (Some err)].
  cbn [fst snd emit trace files commitCalls flat_map app].
  rewrite calls_app, collection_app. cbn. rewrite app_nil_r.
  repeat split; trivial. right. now exists b, err.
Qed.

(** A committed batch extends the shape of what follows it. *)
Lemma runShape_committed : forall env name w b r,
  goodBatch b ->
  runShape name (updateLastProcessedPlaceID env name (lastKey b) (emit (EvInsert b None) w)) r ->
  runShape name w r.
Proof.
  intros env name w b r Hb (batches & tail & Hcalls & Hcol & Hgood & Htail & Hfiles).
  exists (b :: batches), tail.
  rewrite calls_update, collection_update in *. cbn [emit trace] in *.
  rewrite calls_app, collection_app in *. cbn in Hcalls, Hcol.
  rewrite <- !app_assoc in *. cbn [app] in *.
  repeat split; trivial.
  - now constructor.
  - intros n Hn. rewrite (Hfiles n Hn).
    now rewrite files_update_other.
Qed.

Lemma insertRemaining_shape : forall env name st,
  List.length (batch st) <= batchSize ->
  runShape name (world st) (insertRemaining env name st).
Proof.
  intros env name st Hlen. unfold insertRemaining.
  destruct (Nat.ltb 0 (List.length (batch st))) eqn:Hpos; [|apply runShape_idle].
  apply Nat.ltb_lt in Hpos.
  assert (Hgood : goodBatch (batch st)) by (split; assumption).
  rewrite insertMany_eq.
  destruct (InsertMany env (insertCalls (trace (world st))) (batch st)) as [err|].
  - now apply runShape_failed.
  - destruct (nth_error (batch st) (List.length (batch st) - 1)) as [place|] eqn:Hlast.
    + apply (runShape_committed env name _ (batch st)); trivial.
      unfold lastKey. rewrite Hlast. apply runShape_idle.
    + apply nth_error_None in Hlast. lia.
Qed.

Lemma loop_shape : forall env name lastProcessedID reader st,
  List.length (batch st) < batchSize ->
  runShape name (world st) (loop env name lastProcessedID reader st).
Proof.
  intros env name lastProcessedID reader.
  induction reader as [|[record|err] reader IH]; intros st Hlen; cbn [loop].
  - apply insertRemaining_shape. lia.
  - unfold body.
    destruct (startProcessing st) eqn:Hstart; cbn [negb].
    + destruct (mapPlace env record) as [place|p]; [|apply runShape_idle].
      destruct (Nat.leb batchSize (List.length (batch st ++ [place]))) eqn:Hfull.
      * assert (Hgood : goodBatch (batch st ++ [place])).
        { unfold goodBatch. rewrite length_app. cbn [List.length]. lia. }
        rewrite insertMany_eq.
        destruct (InsertMany env (insertCalls (trace (world st))) (batch st ++ [place]))
          as [err|].
        -- now apply runShape_failed.
        -- apply (runShape_committed env name _ (batch st ++ [place])); trivial.
           rewrite lastKey_snoc.
           match goal with
           | |- runShape _ ?w0 (loop _ _ _ _ ?st1) =>
               change w0 with (world st1); apply IH
           end.
           cbn [batch List.length]. apply batchSize_pos.
      * apply Nat.leb_gt in Hfull.
        match goal with
        | |- runShape _ ?w0 (loop _ _ _ _ ?st1) =>
            change w0 with (world st1); apply IH
        end.
        exact Hfull.
    + destruct (index record 0) as [k|p]; cbn [bind]; [|apply runShape_idle].
      destruct (String.eqb k lastProcessedID).
      * match goal with
        | |- runShape _ ?w0 (loop _ _ _ _ ?st1) =>
            change w0 with (world st1); apply IH
        end.
        exact Hlen.
      * now apply IH.
  - destruct (String.eqb err "EOF"); [apply insertRemaining_shape; lia|apply runShape_idle].
Qed.

Lemma runShape_print : forall name w line r,
  runShape name (emit (EvPrint line) w) r -> runShape name w r.
Proof.
  intros name w line r (batches & tail & Hcalls & Hcol & H).
  exists batches, tail. cbn [emit trace files] in *.
  rewrite calls_app, collection_app in *. cbn in Hcalls, Hcol.
  rewrite app_nil_r in *. now repeat split.
Qed.

Lemma processCSV_shape : forall env name csvFile mongoURI dbName collectionName w,
  runShape name w (processCSV env name csvFile mongoURI dbName collectionName w).
Proof.
  intros env name csvFile mongoURI dbName collectionName w. unfold processCSV.
  destruct (Connect env mongoURI); [apply runShape_idle|].
  destruct (Open env csvFile) as [reader|err]; [|apply runShape_idle].
  destruct (getLastProcessedPlaceID env name w) as [key|err]; [|apply runShape_idle].
  destruct reader as [|[header|err] rest].
  - eapply runShape_print, runShape_idle.
  - apply (runShape_print name w ("Header: " ++ showRecord header)%string).
    match goal with
    | |- runShape _ _ (loop _ _ _ _ ?st1) => apply (loop_shape env name key rest st1)
    end.
    cbn [batch List.length]. apply batchSize_pos.
  - eapply runShape_print, runShape_idle.
Qed.

(** X1.  Whatever the file, the checkpoint and the environment, every
    batch [processCSV] hands to InsertMany holds at least one and at most
    1000 entities. *)
Theorem every_insert_is_a_bounded_batch :
  forall env name csvFile mongoURI dbName collectionName fs b err,
    In (CallInsert b err)
      (calls (trace (snd (processCSV env name csvFile mongoURI dbName collectionName
                            {| files := fs; trace := [] |})))) ->
    0 < List.length b <= batchSize.
Proof.
  intros env name csvFile mongoURI dbName collectionName fs b err Hin.
  destruct (processCSV_shape env name csvFile mongoURI dbName collectionName
              {| files := fs; trace := [] |})
    as (batches & tail & Hcalls & _ & Hgood & Htail & _).
  rewrite Hcalls in Hin. cbn [trace calls flat_map app] in Hin.
  apply in_app_or in Hin. destruct Hin as [Hin|Hin].
  - unfold commitCalls in Hin. apply in_flat_map in Hin.
    destruct Hin as (b0 & Hb0 & [H|[H|[]]]); [|discriminate].
    injection H as -> _. rewrite Forall_forall in Hgood. now apply Hgood.
  - destruct Htail as [->|(b0 & e0 & -> & _ & Hb0)]; [destruct Hin|].
    destruct Hin as [H|[]]. injection H as -> _. exact Hb0.
Qed.

Lemma every_insert_is_a_bounded_batch_witness :
  0 < List.length [Sample.place "k1"; Sample.place "k2"] <= batchSize.
Proof.
  apply (every_insert_is_a_bounded_batch
           (Sample.env [Sample.row "k1"; Sample.row "k2"])
           "places_progress.txt" "places.csv" "mongodb://localhost:27017" "geo" "places"
           (fun _ => None) [Sample.place "k1"; Sample.place "k2"] None).
  vm_compute. left. reflexivity.
Defined.

(** X2.  The calls of any run are insert-then-write pairs, one pair per
    committed batch, each write putting the key of the last entity of the
    batch just inserted into the progress file; an insert that fails is the
    last call of the run, and its error is what [processCSV] returns. *)
Theorem writes_follow_inserts_and_failure_ends_the_run :
  forall env name csvFile mongoURI dbName collectionName fs,
    let r := processCSV env name csvFile mongoURI dbName collectionName
               {| files := fs; trace := [] |} in
    exists batches,
      collection (trace (snd r)) = batches
      /\ (calls (trace (snd r)) = commitCalls name batches
          \/ exists b err,
               calls (trace (snd r)) = commitCalls name batches ++ [CallInsert b (Some err)]
               /\ fst r = Returned (Some err)).
Proof.
  intros env name csvFile mongoURI dbName collectionName fs r.
  destruct (processCSV_shape env name csvFile mongoURI dbName collectionName
              {| files := fs; trace := [] |})
    as (batches & tail & Hcalls & Hcol & _ & Htail & _).
  fold r in Hcalls, Hcol, Htail. cbn [trace calls collection flat_map app] in Hcalls, Hcol.
  exists batches. split; [exact Hcol|].
  destruct Htail as [->|(b & err & -> & Hret & _)].
  - left. now rewrite app_nil_r in Hcalls.
  - right. now exists b, err.
Qed.

(** X3.  [processCSV] writes no file but the progress file: every other
    file is after the run what it was before, whatever happens. *)
Theorem only_the_progress_file_is_written :
  forall env name csvFile mongoURI dbName collectionName w other,
    other <> name ->
    files (snd (processCSV env name csvFile mongoURI dbName collectionName w)) other
    = files w other.
Proof.
  intros env name csvFile mongoURI dbName collectionName w other Hother.
  destruct (processCSV_shape env name csvFile mongoURI dbName collectionName w)
    as (_ & _ & _ & _ & _ & _ & Hfiles).
  now apply Hfiles.
Qed.

Lemma only_the_progress_file_is_written_witness :
  files (snd (processCSV (Sample.env [Sample.row "k1"])
                "places_progress.txt" "places.csv" "mongodb://localhost:27017" "geo" "places"
                (Sample.withFile "places.csv" "data"))) "places.csv"
  = Some "data".
Proof.
  apply (only_the_progress_file_is_written (Sample.env [Sample.row "k1"])
           "places_progress.txt" "places.csv" "mongodb://localhost:27017" "geo" "places"
           (Sample.withFile "places.csv" "data") "places.csv").
  discriminate.
Defined.

(** *** Records followed by more of the file *)

Lemma div_full_more : forall n, (batchSize + n) / batchSize = S (n / batchSize).
Proof.
  intros n. replace (batchSize + n) with (n + 1 * batchSize) by lia.
  rewrite Nat.div_add by (pose proof batchSize_pos; lia). lia.
Qed.

(** While every record maps, the loop commits the full batches among what
    is buffered followed by the mapped records, and goes on with the rest of
    the file holding what is left over. *)
Lemma loop_commits_prefix : forall env name lastProcessedID rows places rest st,
  Forall2 (fun r place => mapPlace env r = Val place) rows places ->
  startProcessing st = true ->
  List.length (batch st) < batchSize ->
  let all := batch st ++ places in
  let full := List.length all / batchSize * batchSize in
  loop env name lastProcessedID (map Row rows ++ rest) st
  = andThen (commitAll env name (chunks batchSize (firstn full all)) (world st))
      (fun w => loop env name lastProcessedID rest
                  {| startProcessing := true; batch := skipn full all; world := w |}).
Proof.
  intros env name lastProcessedID rows places rest st HF. revert st.
  induction HF as [|r place rows places Hmap HF IH]; intros st Hs Hlen; cbn zeta.
  - rewrite app_nil_r, Nat.div_small by exact Hlen.
    cbn [Nat.mul firstn skipn map app]. rewrite chunks_nil. cbn [commitAll andThen].
    destruct st as [s b w]. cbn in Hs. now subst s.
  - cbn [map app loop]. rewrite (body_map env name lastProcessedID st r Hs), Hmap.
    destruct (Nat.leb batchSize (List.length (batch st ++ [place]))) eqn:Hfull.
    + apply Nat.leb_le in Hfull. rewrite length_app in Hfull. cbn [List.length] in Hfull.
      assert (Hx : List.length (batch st ++ [place]) = batchSize)
        by (rewrite length_app; cbn [List.length]; lia).
      replace (batch st ++ place :: places) with ((batch st ++ [place]) ++ places)
        by (now rewrite <- app_assoc).
      rewrite length_app, Hx, div_full_more.
      cbn [Nat.mul].
      rewrite firstn_app, skipn_app, Hx.
      replace (batchSize + List.length places / batchSize * batchSize - batchSize)
        with (List.length places / batchSize * batchSize) by lia.
      rewrite firstn_all2, skipn_all2 by lia.
      cbn [app]. rewrite chunks_app_full by (trivial; apply batchSize_pos).
      cbn [commitAll].
      destruct (insertMany env (batch st ++ [place]) (world st)) as [[err|] w1];
        [reflexivity|].
      rewrite lastKey_snoc.
      rewrite IH; [reflexivity|reflexivity|cbn [batch List.length]; apply batchSize_pos].
    + apply Nat.leb_gt in Hfull.
      rewrite IH; trivial. cbn [batch world]. now rewrite <- app_assoc.
Qed.

Lemma length_chunks_exact : forall (A : Type) (l : list A) q,
  List.length l = q * batchSize -> List.length (chunks batchSize l) = q.
Proof.
  intros A l q H. rewrite length_chunks by apply batchSize_pos. rewrite H.
  pose proof batchSize_pos.
  symmetry. apply (Nat.div_unique _ _ _ (batchSize - 1)); lia.
Qed.

(** X4.  A read error in the middle of the file (a malformed row) ends a
    run that started from scratch with that error.  The complete batches
    read before it stay committed; the entities buffered for the next batch
    are not inserted. *)
Theorem read_error_drops_the_open_batch :
  forall env name csvFile mongoURI dbName collectionName w header rows places err rest,
    Connect env mongoURI = None ->
    Open env csvFile = Ok (Row header :: map Row rows ++ ReadError err :: rest) ->
    ReadFileFault env name = None ->
    files w name = None ->
    (forall i b, InsertMany env i b = None) ->
    Forall2 (fun r place => mapPlace env r = Val place) rows places ->
    err <> "EOF" ->
    let N := List.length rows in
    exists w1,
      processCSV env name csvFile mongoURI dbName collectionName w
      = (Returned (Some err), w1)
      /\ insertCalls (trace w1) = insertCalls (trace w) + N / batchSize
      /\ List.concat (collection (trace w1))
         = List.concat (collection (trace w)) ++ firstn (N / batchSize * batchSize) places.
Proof.
  intros env name csvFile mongoURI dbName collectionName w header rows places err rest
    Hconn Hopen Hfault Hfile Hins Hmap Herr N.
  assert (HN : List.length places = N) by (symmetry; eapply Forall2_length; eassumption).
  unfold processCSV, getLastProcessedPlaceID.
  rewrite Hconn, Hopen, Hfault, Hfile.
  replace (String.eqb "" "") with true by reflexivity.
  rewrite (loop_commits_prefix env name "" rows places); trivial;
    [|cbn [batch List.length]; apply batchSize_pos].
  cbn [batch world app]. rewrite HN.
  destruct (commitAll_all_ok env name
              (chunks batchSize (firstn (N / batchSize * batchSize) places))
              (emit (EvPrint ("Header: " ++ showRecord header)%string) w) Hins)
    as (w1 & Hrun & Hcol & Hcalls).
  rewrite Hrun. cbn [andThen loop].
  apply String.eqb_neq in Herr. rewrite Herr. cbn [world].
  exists w1. split; [reflexivity|].
  rewrite Hcol, Hcalls. cbn [emit trace].
  rewrite collection_app, insertCalls_app.
  cbn [collection insertCalls flat_map List.length app].
  rewrite app_nil_r, concat_app, concat_chunks by apply batchSize_pos.
  split; [|reflexivity].
  rewrite (length_chunks_exact _ _ (N / batchSize)); [lia|].
  rewrite length_firstn, HN.
  pose proof (Nat.Div0.mul_div_le N batchSize). lia.
Qed.

Lemma read_error_drops_the_open_batch_witness :
  exists w1,
    processCSV
      {| LoadDotenv := None; Getenv := Sample.getenv; Connect := fun _ => None;
         Open := fun _ => Ok (Row Sample.header
                                :: map Row [Sample.row "k1"; Sample.row "k2"]
                                ++ [ReadError "record on line 4: wrong number of fields"]);
         ReadFileFault := fun _ => None; ParseFloat := Sample.parse;
         InsertMany := fun _ _ => None; WriteFile := fun _ _ _ => Written |}
      "places_progress.txt" "places.csv" "mongodb://localhost:27017" "geo" "places"
      Sample.noFiles
    = (Returned (Some "record on line 4: wrong number of fields"), w1)
    /\ insertCalls (trace w1) = 0.
Proof.
  destruct (read_error_drops_the_open_batch
              {| LoadDotenv := None; Getenv := Sample.getenv; Connect := fun _ => None;
                 Open := fun _ => Ok (Row Sample.header
                                        :: map Row [Sample.row "k1"; Sample.row "k2"]
                                        ++ [ReadError "record on line 4: wrong number of fields"]);
                 ReadFileFault := fun _ => None; ParseFloat := Sample.parse;
                 InsertMany := fun _ _ => None; WriteFile := fun _ _ _ => Written |}
              "places_progress.txt" "places.csv" "mongodb://localhost:27017" "geo" "places"
              Sample.noFiles Sample.header [Sample.row "k1"; Sample.row "k2"]
              [Sample.place "k1"; Sample.place "k2"]
              "record on line 4: wrong number of fields" []
              eq_refl eq_refl eq_refl eq_refl (fun _ _ => eq_refl))
    as (w1 & Hrun & Hcalls & _).
  - repeat constructor.
  - discriminate.
  - exists w1. split; [exact Hrun|exact Hcalls].
Defined.

(** *** Where the checkpoint ends up, and the run after *)

Lemma chunks_nonempty : forall (A : Type) n (l : list A),
  0 < n -> Forall (fun b => b <> []) (chunks n l).
Proof.
  intros A n l Hn.
  remember (List.length l) as m eqn:Hm.
  revert l Hm. induction m as [m IH] using lt_wf_ind. intros l Hm.
  destruct l as [|a l]; [constructor|].
  rewrite chunks_step by (trivial; discriminate).
  constructor.
  - destruct n; [lia|discriminate].
  - apply (IH (List.length (skipn n (a :: l)))); trivial.
    rewrite length_skipn. subst m. cbn [List.length]. lia.
Qed.


Lemma last_app_nonempty : forall (A : Type) (l1 l2 : list A) d,
  l2 <> [] -> last (l1 ++ l2) d = last l2 d.
Proof.
  intros A l1 l2 d H. destruct (exists_last H) as (init & x & ->).
  now rewrite app_assoc, !last_last.
Qed.

Lemma last_concat : forall (A : Type) (ll : list (list A)) d,
  ll <> [] -> Forall (fun b => b <> []) ll ->
  last (List.concat ll) d = last (last ll []) d.
Proof.
  intros A ll d Hne HF. induction HF as [|b ll Hb HF IH]; [congruence|].
  cbn [List.concat]. destruct ll as [|c ll].
  - cbn. now rewrite app_nil_r.
  - rewrite last_app_nonempty.
    + rewrite IH by discriminate. reflexivity.
    + cbn [List.concat]. inversion HF; subst.
      destruct c; [congruence|discriminate].
Qed.

Lemma lastKey_last : forall b d, b <> [] -> lastKey b = PlaceID (last b d).
Proof.
  intros b d Hb. destruct (exists_last Hb) as (init & x & ->).
  now rewrite lastKey_snoc, last_last.
Qed.

Lemma lastKey_last_chunk : forall places place,
  lastKey (last (chunks batchSize (places ++ [place])) []) = PlaceID place.
Proof.
  intros places place.
  pose proof (chunks_nonempty Place batchSize (places ++ [place]) batchSize_pos) as HF.
  assert (Hne : chunks batchSize (places ++ [place]) <> []).
  { rewrite chunks_step by (try apply batchSize_pos; destruct places; discriminate).
    discriminate. }
  rewrite (lastKey_last _ place).
  - rewrite <- last_concat, concat_chunks by (trivial; apply batchSize_pos).
    now rewrite last_last.
  - destruct (exists_last Hne) as (init & c & Heq). rewrite Heq in *.
    rewrite last_last. apply Forall_app in HF. destruct HF as [_ HF]. now inversion HF.
Qed.


Lemma commitAll_all_ok_file : forall env name batches w,
  (forall i b, InsertMany env i b = None) ->
  (forall i n d, WriteFile env i n d = Written) ->
  files (snd (commitAll env name batches w)) name
  = match batches with
    | [] => files w name
    | _ :: _ => Some (lastKey (last batches []))
    end.
Proof.
  intros env name batches w Hins Hwr. revert w.
  induction batches as [|b batches IH]; intros w; [reflexivity|].
  cbn [commitAll]. rewrite insertMany_eq, Hins, IH.
  destruct batches as [|c batches]; [|reflexivity].
  cbn [last]. apply files_update_written, Hwr.
Qed.

Lemma fresh_run_is_commitAll :
  forall env name csvFile mongoURI dbName collectionName w header rows places,
    Connect env mongoURI = None ->
    Open env csvFile = Ok (Row header :: map Row rows) ->
    ReadFileFault env name = None ->
    files w name = None ->
    Forall2 (fun r place => mapPlace env r = Val place) rows places ->
    processCSV env name csvFile mongoURI dbName collectionName w
    = commitAll env name (chunks batchSize places)
        (emit (EvPrint ("Header: " ++ showRecord header)%string) w).
Proof.
  intros env name csvFile mongoURI dbName collectionName w header rows places
    Hconn Hopen Hfault Hfile Hmap.
  unfold processCSV, getLastProcessedPlaceID.
  rewrite Hconn, Hopen, Hfault, Hfile.
  replace (String.eqb "" "") with true by reflexivity.
  cbn [startProcessing batch].
  rewrite (loop_commits env name "" rows places); trivial.
  cbn [batch List.length]. apply batchSize_pos.
Qed.


Lemma mapPlace_key : forall env record place key,
  mapPlace env record = Val place -> nth_error record 0 = Some key -> PlaceID place = key.
Proof.
  intros env record place key Hmap Hkey.
  destruct (mapPlace_fields env record place Hmap) as (_ & Hid & _).
  rewrite Hid. destruct record; [discriminate|]. cbn in *. congruence.
Qed.

(** A run from scratch without any failure ends with the key of the last
    row in the progress file. *)
Lemma fresh_complete_run :
  forall env name csvFile mongoURI dbName collectionName w header rows lastRow key,
    Connect env mongoURI = None ->
    Open env csvFile = Ok (Row header :: map Row (rows ++ [lastRow])) ->
    ReadFileFault env name = None ->
    files w name = None ->
    (forall i b, InsertMany env i b = None) ->
    (forall i n d, WriteFile env i n d = Written) ->
    Forall (fun r => 15 <= List.length r) (rows ++ [lastRow]) ->
    nth_error lastRow 0 = Some key ->
    exists w1,
      processCSV env name csvFile mongoURI dbName collectionName w = (Returned None, w1)
      /\ files w1 name = Some key.
Proof.
  intros env name csvFile mongoURI dbName collectionName w header rows lastRow key
    Hconn Hopen Hfault Hfile Hins Hwr Hwide Hkey.
  destruct (wide_rows_map env _ Hwide) as (places & Hmap).
  destruct (Forall2_app_inv_l _ _ Hmap) as (pinit & plast & _ & Hlast & ->).
  inversion Hlast as [|? place ? ? Hplace Hnil]; subst. inversion Hnil; subst.
  rewrite (fresh_run_is_commitAll env name csvFile mongoURI dbName collectionName
             w header _ _ Hconn Hopen Hfault Hfile Hmap).
  destruct (commitAll_all_ok env name (chunks batchSize (pinit ++ [place]))
              (emit (EvPrint ("Header: " ++ showRecord header)%string) w) Hins)
    as (w1 & Hrun & _).
  exists w1. split; [exact Hrun|].
  pose proof (commitAll_all_ok_file env name (chunks batchSize (pinit ++ [place]))
                (emit (EvPrint ("Header: " ++ showRecord header)%string) w) Hins Hwr) as Hf.
  rewrite Hrun in Hf. cbn [snd] in Hf. rewrite Hf.
  destruct (chunks batchSize (pinit ++ [place])) eqn:Hc.
  - rewrite chunks_step in Hc by (try apply batchSize_pos; destruct pinit; discriminate).
    discriminate.
  - rewrite <- Hc, lastKey_last_chunk. f_equal. eapply mapPlace_key; eassumption.
Qed.

(** X5.  After a run from scratch in which every insert and every write of
    the progress file succeeds, the progress file holds column 0 of the last
    row of the file. *)
Theorem complete_run_leaves_last_key :
  forall env name csvFile mongoURI dbName collectionName w header rows lastRow key,
    Connect env mongoURI = None ->
    Open env csvFile = Ok (Row header :: map Row (rows ++ [lastRow])) ->
    ReadFileFault env name = None ->
    files w name = None ->
    (forall i b, InsertMany env i b = None) ->
    (forall i n d, WriteFile env i n d = Written) ->
    Forall (fun r => 15 <= List.length r) (rows ++ [lastRow]) ->
    nth_error lastRow 0 = Some key ->
    exists w1,
      processCSV env name csvFile mongoURI dbName collectionName w = (Returned None, w1)
      /\ files w1 name = Some key.
Proof.
  intros env name csvFile mongoURI dbName collectionName w header rows lastRow key.
  apply fresh_complete_run.
Qed.

Lemma complete_run_leaves_last_key_witness :
  exists w1,
    processCSV (Sample.env ([Sample.row "k1"; Sample.row "k2"] ++ [Sample.row "k3"]))
      "places_progress.txt" "places.csv" "mongodb://localhost:27017" "geo" "places"
      Sample.noFiles = (Returned None, w1)
    /\ files w1 "places_progress.txt" = Some "k3".
Proof.
  apply (complete_run_leaves_last_key
           (Sample.env ([Sample.row "k1"; Sample.row "k2"] ++ [Sample.row "k3"]))
           "places_progress.txt" "places.csv" "mongodb://localhost:27017" "geo" "places"
           Sample.noFiles Sample.header
           [Sample.row "k1"; Sample.row "k2"] (Sample.row "k3") "k3"
           eq_refl eq_refl eq_refl eq_refl (fun _ _ => eq_refl) (fun _ _ _ => eq_refl)).
  - repeat constructor; cbn; lia.
  - reflexivity.
Defined.



Lemma mapPlace_same_parser : forall env env2 record,
  ParseFloat env2 = ParseFloat env -> mapPlace env2 record = mapPlace env record.
Proof.
  intros env env2 record H. unfold mapPlace, parseFloat. now rewrite H.
Qed.




(** *** The progress file read back *)

Lemma trimSpaceLeft_stop : forall fuel table s,
  Strings.spaceWidth table s = 0 -> Strings.trimSpaceLeft fuel table s = s.
Proof. intros fuel table s H. destruct fuel; cbn [Strings.trimSpaceLeft]; now rewrite ?H. Qed.

Lemma find_all_false : forall (A : Type) (f : A -> bool) l,
  (forall x, In x l -> f x = false) -> find f l = None.
Proof.
  intros A f l H. induction l as [|x l IH]; [reflexivity|].
  cbn [find]. rewrite (H x) by now left. apply IH. intros y Hy. apply H. now right.
Qed.

Lemma prefix_other_head : forall c p a rest,
  c <> a -> prefix (String c p) (String a rest) = false.
Proof. intros c p a rest H. cbn [prefix]. now destruct (ascii_dec c a). Qed.

Lemma asciiGraphic_small : forall c, asciiGraphic c = true -> nat_of_ascii c < 127.
Proof.
  intros c H. unfold asciiGraphic in H. apply andb_prop in H.
  destruct H as [_ H]. now apply Nat.ltb_lt in H.
Qed.

Lemma asciiGraphic_not_space : forall c,
  asciiGraphic c = true -> Strings.inCutset Strings.asciiSpace c = false.
Proof.
  intros c H. unfold asciiGraphic in H. apply andb_prop in H.
  destruct H as [H _]. apply Nat.ltb_lt in H.
  assert (Hne : forall n, n <= 32 -> Ascii.eqb c (ascii_of_nat n) = false).
  { intros n Hn. apply Ascii.eqb_neq. intros ->.
    rewrite nat_ascii_embedding in H by lia. lia. }
  unfold Strings.asciiSpace, Strings.bytes.
  cbn [map string_of_list_ascii Strings.inCutset].
  rewrite (Hne 9), (Hne 10), (Hne 11), (Hne 12), (Hne 13), (Hne 32) by lia.
  reflexivity.
Qed.

(** No white-space rune, in either direction, starts with a printable
    ASCII byte. *)
Lemma spaceWidth_graphic : forall a rest,
  asciiGraphic a = true ->
  Strings.spaceWidth Strings.unicodeSpaces (String a rest) = 0
  /\ Strings.spaceWidth (map Strings.revString Strings.unicodeSpaces) (String a rest) = 0.
Proof.
  intros a rest Ha.
  pose proof (asciiGraphic_small a Ha) as Hsmall.
  assert (Hhead : forall n p, 127 <= n < 256 ->
            prefix (String (ascii_of_nat n) p) (String a rest) = false).
  { intros n p Hn. apply prefix_other_head. intros <-.
    rewrite nat_ascii_embedding in Hsmall by lia. lia. }
  unfold Strings.spaceWidth. rewrite (asciiGraphic_not_space a Ha).
  split; rewrite find_all_false; trivial; intros p Hp;
    vm_compute in Hp;
    repeat (destruct Hp as [<-|Hp];
            [match goal with
             | |- prefix (String ?c ?p) _ = false =>
                 change c with (ascii_of_nat (nat_of_ascii c));
                 apply Hhead; vm_compute; lia
             end|]);
    destruct Hp.
Qed.

Lemma revString_snoc : forall s b,
  Strings.revString (s ++ String b "")%string = String b (Strings.revString s).
Proof.
  intros s b. unfold Strings.revString.
  rewrite list_ascii_of_append. cbn [list_ascii_of_string].
  now rewrite rev_unit.
Qed.

Lemma revString_involutive : forall s, Strings.revString (Strings.revString s) = s.
Proof.
  intros s. unfold Strings.revString.
  now rewrite list_ascii_of_string_of_list_ascii, rev_involutive,
    string_of_list_ascii_of_string.
Qed.

(** A text that starts and ends with a printable ASCII byte has no white
    space for [TrimSpace] to remove. *)
Lemma TrimSpace_graphic : forall key a rest front b,
  key = String a rest -> key = (front ++ String b "")%string ->
  asciiGraphic a = true -> asciiGraphic b = true ->
  Strings.TrimSpace key = key.
Proof.
  intros key a rest front b Ha Hb Hga Hgb. unfold Strings.TrimSpace.
  assert (Hleft : forall fuel, Strings.trimSpaceLeft fuel Strings.unicodeSpaces key = key).
  { intros fuel. apply trimSpaceLeft_stop. rewrite Ha. now apply spaceWidth_graphic. }
  rewrite !Hleft.
  rewrite trimSpaceLeft_stop; [apply revString_involutive|].
  rewrite Hb, revString_snoc. now apply spaceWidth_graphic.
Qed.

(** X8.  The progress file round trip: after a write of [key] that went
    through, [getLastProcessedPlaceID] returns [key] with its surrounding
    white space removed, and returns [key] itself when it starts and ends
    with a printable ASCII byte. *)
Theorem checkpoint_write_then_read :
  forall env env2 name key w,
    WriteFile env (writeCalls (trace w)) name key = Written ->
    ReadFileFault env2 name = None ->
    getLastProcessedPlaceID env2 name (updateLastProcessedPlaceID env name key w)
    = Ok (Strings.TrimSpace key)
    /\ (forall a rest front b,
          key = String a rest -> key = (front ++ String b "")%string ->
          asciiGraphic a = true -> asciiGraphic b = true ->
          getLastProcessedPlaceID env2 name (updateLastProcessedPlaceID env name key w)
          = Ok key).
Proof.
  intros env env2 name key w Hw Hr.
  assert (Hget : getLastProcessedPlaceID env2 name (updateLastProcessedPlaceID env name key w)
                 = Ok (Strings.TrimSpace key)).
  { unfold getLastProcessedPlaceID. rewrite Hr.
    now rewrite (files_update_written env name key w Hw). }
  split; [exact Hget|].
  intros a rest front b Ha Hb Hga Hgb. rewrite Hget.
  f_equal. eapply TrimSpace_graphic; eassumption.
Qed.

Lemma checkpoint_write_then_read_witness :
  getLastProcessedPlaceID (Sample.env []) "places_progress.txt"
    (updateLastProcessedPlaceID (Sample.env []) "places_progress.txt" "ChIJ 7x" Sample.noFiles)
  = Ok "ChIJ 7x".
Proof.
  destruct (checkpoint_write_then_read (Sample.env []) (Sample.env [])
              "places_progress.txt" "ChIJ 7x" Sample.noFiles eq_refl eq_refl)
    as (_ & Hexact).
  apply (Hexact "C"%char "hIJ 7x" "ChIJ 7" "x"%char); reflexivity.
Defined.

(** *** [main]: exit status and configuration *)

Lemma eqb_empty_false : forall s, String.eqb s "" = false -> s <> "".
Proof. intros s H. now apply String.eqb_neq. Qed.

(** X9.  The program ends with status 0 exactly when [.env] loads, the
    four settings are present and [processCSV] returns nil; a panic gives
    status 2 and everything else status 1. *)
Theorem exit_status_zero_iff_configured_and_nil :
  forall env w,
    let csvFile := Getenv env "CSV_FILE" in
    let mongoURI := Getenv env "MONGO_URI" in
    let dbName := Getenv env "DB_NAME" in
    let collectionName := Getenv env "COLLECTION_NAME" in
    let result := processCSV env (beforeDot csvFile ++ progressFile)%string
                    csvFile mongoURI dbName collectionName w in
    (fst (main env w) = 0
     <-> configured env csvFile mongoURI dbName collectionName
         /\ fst result = Returned None)
    /\ (fst (main env w) = 2
        <-> configured env csvFile mongoURI dbName collectionName
            /\ exists p, fst result = Panicked p)
    /\ (fst (main env w) = 0 \/ fst (main env w) = 1 \/ fst (main env w) = 2).
Proof.
  intros env w csvFile mongoURI dbName collectionName result.
  assert (Hcases :
            (configured env csvFile mongoURI dbName collectionName
             /\ main env w
                = match result with
                  | (Panicked _, w1) => (2, w1)
                  | (Returned (Some err), w1) =>
                      fatal ("Error processing CSV: " ++ err)%string w1
                  | (Returned None, w1) =>
                      (0, emit (EvPrint "CSV data inserted successfully!") w1)
                  end)
            \/ (~ configured env csvFile mongoURI dbName collectionName
                /\ fst (main env w) = 1)).
  { destruct (LoadDotenv env) as [e|] eqn:Hdot.
    { right. split; [intros (H & _); congruence|]. unfold main. now rewrite Hdot. }
    destruct (String.eqb csvFile "") eqn:H1.
    { right. split.
      - intros (_ & _ & H & _). apply String.eqb_neq in H; congruence.
      - unfold main. fold csvFile. now rewrite Hdot, H1. }
    destruct (String.eqb mongoURI "") eqn:H2.
    { right. split.
      - intros (_ & _ & _ & _ & H & _). apply String.eqb_neq in H; congruence.
      - unfold main. fold csvFile mongoURI. now rewrite Hdot, H1, H2. }
    destruct (String.eqb dbName "") eqn:H3.
    { right. split.
      - intros (_ & _ & _ & _ & _ & _ & H & _). apply String.eqb_neq in H; congruence.
      - unfold main. fold csvFile mongoURI dbName. now rewrite Hdot, H1, H2, H3. }
    destruct (String.eqb collectionName "") eqn:H4.
    { right. split.
      - intros (_ & _ & _ & _ & _ & _ & _ & _ & H). apply String.eqb_neq in H; congruence.
      - unfold main. fold csvFile mongoURI dbName collectionName.
        now rewrite Hdot, H1, H2, H3, H4. }
    left.
    assert (Hconf : configured env csvFile mongoURI dbName collectionName)
      by (repeat split; trivial; now apply eqb_empty_false).
    split; [exact Hconf|]. now apply main_configured. }
  destruct Hcases as [(Hconf & Hmain)|(Hnot & Hone)].
  - rewrite Hmain. destruct result as [[[err|]|p] w1]; cbn [fst snd fatal];
      (split; [|split]; [split|split|tauto]);
      try discriminate;
      try (intros (_ & Hr); discriminate);
      try (intros (_ & q & Hr); discriminate);
      try (intros _; reflexivity).
    + intros _. now split.
    + intros _. split; [exact Hconf|now exists p].
  - rewrite Hone. (split; [|split]; [split|split|tauto]); try discriminate; tauto.
Qed.

(** X10.  When [.env] does not load or one of the four settings is
    missing, the program logs one line and exits with status 1 without
    doing anything else. *)
Theorem misconfiguration_is_fatal_before_any_work :
  forall env w,
    ~ configured env (Getenv env "CSV_FILE") (Getenv env "MONGO_URI")
        (Getenv env "DB_NAME") (Getenv env "COLLECTION_NAME") ->
    exists line, main env w = (1, emit (EvLog line) w).
Proof.
  intros env w Hnot. unfold main, fatal.
  destruct (LoadDotenv env) eqn:Hdot; [eexists; reflexivity|].
  destruct (String.eqb (Getenv env "CSV_FILE") "") eqn:H1; [eexists; reflexivity|].
  destruct (String.eqb (Getenv env "MONGO_URI") "") eqn:H2; [eexists; reflexivity|].
  destruct (String.eqb (Getenv env "DB_NAME") "") eqn:H3; [eexists; reflexivity|].
  destruct (String.eqb (Getenv env "COLLECTION_NAME") "") eqn:H4; [eexists; reflexivity|].
  exfalso. apply Hnot. repeat split; trivial; now apply eqb_empty_false.
Qed.

Lemma misconfiguration_is_fatal_before_any_work_witness :
  exists line,
    main {| LoadDotenv := Some "open .env: no such file or directory";
            Getenv := Sample.getenv; Connect := fun _ => None;
            Open := fun _ => Ok [Row Sample.header];
            ReadFileFault := fun _ => None; ParseFloat := Sample.parse;
            InsertMany := fun _ _ => None; WriteFile := fun _ _ _ => Written |}
      Sample.noFiles
    = (1, emit (EvLog line) Sample.noFiles).
Proof.
  apply (misconfiguration_is_fatal_before_any_work
           {| LoadDotenv := Some "open .env: no such file or directory";
              Getenv := Sample.getenv; Connect := fun _ => None;
              Open := fun _ => Ok [Row Sample.header];
              ReadFileFault := fun _ => None; ParseFloat := Sample.parse;
              InsertMany := fun _ _ => None; WriteFile := fun _ _ _ => Written |}
           Sample.noFiles).
  intros (H & _). discriminate H.
Defined.

(** X11.  An empty input file (not even a header) is an error: the
    program prints that the header could not be read, logs the EOF and
    exits with status 1 without any insert or write. *)
Theorem empty_file_is_a_fatal_error :
  forall env csvFile mongoURI dbName collectionName w,
    configured env csvFile mongoURI dbName collectionName ->
    Connect env mongoURI = None ->
    Open env csvFile = Ok [] ->
    ReadFileFault env (beforeDot csvFile ++ progressFile)%string = None ->
    main env w
    = (1, emit (EvLog "Error processing CSV: EOF")
            (emit (EvPrint "Error reading header: EOF") w)).
Proof.
  intros env csvFile mongoURI dbName collectionName w Hconf Hconn Hopen Hfault.
  rewrite (main_configured _ _ _ _ _ _ Hconf).
  unfold processCSV, getLastProcessedPlaceID. rewrite Hconn, Hopen, Hfault.
  destruct (files w (beforeDot csvFile ++ progressFile)%string); reflexivity.
Qed.

Lemma empty_file_is_a_fatal_error_witness :
  fst (main {| LoadDotenv := None; Getenv := Sample.getenv; Connect := fun _ => None;
               Open := fun _ => Ok [];
               ReadFileFault := fun _ => None; ParseFloat := Sample.parse;
               InsertMany := fun _ _ => None; WriteFile := fun _ _ _ => Written |}
         Sample.noFiles) = 1.
Proof.
  rewrite (empty_file_is_a_fatal_error
             {| LoadDotenv := None; Getenv := Sample.getenv; Connect := fun _ => None;
                Open := fun _ => Ok [];
                ReadFileFault := fun _ => None; ParseFloat := Sample.parse;
                InsertMany := fun _ _ => None; WriteFile := fun _ _ _ => Written |}
             "places.csv" "mongodb://localhost:27017" "geo" "places" Sample.noFiles).
  - reflexivity.
  - repeat split; discriminate.
  - reflexivity.
  - reflexivity.
  - reflexivity.
Defined.

(** X12.  A file that holds only a header is a success whatever the
    checkpoint says: no insert, no write, status 0. *)
Theorem header_only_file_succeeds_with_no_insert :
  forall env csvFile mongoURI dbName collectionName w header,
    configured env csvFile mongoURI dbName collectionName ->
    Connect env mongoURI = None ->
    Open env csvFile = Ok [Row header] ->
    ReadFileFault env (beforeDot csvFile ++ progressFile)%string = None ->
    main env w
    = (0, emit (EvPrint "CSV data inserted successfully!")
            (emit (EvPrint ("Header: " ++ showRecord header)%string) w)).
Proof.
  intros env csvFile mongoURI dbName collectionName w header Hconf Hconn Hopen Hfault.
  rewrite (main_configured _ _ _ _ _ _ Hconf).
  unfold processCSV, getLastProcessedPlaceID. rewrite Hconn, Hopen, Hfault.
  destruct (files w (beforeDot csvFile ++ progressFile)%string); reflexivity.
Qed.

Lemma header_only_file_succeeds_with_no_insert_witness :
  fst (main (Sample.env []) (Sample.withFile "places_progress.txt" "k7")) = 0.
Proof.
  rewrite (header_only_file_succeeds_with_no_insert (Sample.env [])
             "places.csv" "mongodb://localhost:27017" "geo" "places"
             (Sample.withFile "places_progress.txt" "k7") Sample.header).
  - reflexivity.
  - repeat split; discriminate.
  - reflexivity.
  - reflexivity.
  - reflexivity.
Defined.

(** *** The mapper *)

(** X13.  The mapper reads columns 0 to 3 and 5 to 14 and nothing else:
    two records of at least 15 columns that agree on these columns give the
    same entity, whatever their column 4 (the country) and whatever follows
    column 14. *)
Theorem mapper_ignores_country_and_extra_columns :
  forall env r1 r2,
    15 <= List.length r1 -> 15 <= List.length r2 ->
    (forall i, i < 15 -> i <> 4 -> nth_error r1 i = nth_error r2 i) ->
    mapPlace env r1 = mapPlace env r2
    /\ exists place, mapPlace env r1 = Val place.
Proof.
  intros env r1 r2 H1 H2 Hsame.
  split; [|now apply mapPlace_wide].
  do 15 (destruct r1 as [|? r1]; [cbn in H1; lia|]).
  do 15 (destruct r2 as [|? r2]; [cbn in H2; lia|]).
  pose proof (Hsame 0 ltac:(lia) ltac:(lia)) as E0.
  pose proof (Hsame 1 ltac:(lia) ltac:(lia)) as E1.
  pose proof (Hsame 2 ltac:(lia) ltac:(lia)) as E2.
  pose proof (Hsame 3 ltac:(lia) ltac:(lia)) as E3.
  pose proof (Hsame 5 ltac:(lia) ltac:(lia)) as E5.
  pose proof (Hsame 6 ltac:(lia) ltac:(lia)) as E6.
  pose proof (Hsame 7 ltac:(lia) ltac:(lia)) as E7.
  pose proof (Hsame 8 ltac:(lia) ltac:(lia)) as E8.
  pose proof (Hsame 9 ltac:(lia) ltac:(lia)) as E9.
  pose proof (Hsame 10 ltac:(lia) ltac:(lia)) as E10.
  pose proof (Hsame 11 ltac:(lia) ltac:(lia)) as E11.
  pose proof (Hsame 12 ltac:(lia) ltac:(lia)) as E12.
  pose proof (Hsame 13 ltac:(lia) ltac:(lia)) as E13.
  pose proof (Hsame 14 ltac:(lia) ltac:(lia)) as E14.
  cbn [nth_error] in *.
  injection E0 as ->. injection E1 as ->. injection E2 as ->. injection E3 as ->.
  injection E5 as ->. injection E6 as ->. injection E7 as ->. injection E8 as ->.
  injection E9 as ->. injection E10 as ->. injection E11 as ->. injection E12 as ->.
  injection E13 as ->. injection E14 as ->.
  reflexivity.
Qed.

Lemma mapper_ignores_country_and_extra_columns_witness :
  mapPlace (Sample.env [])
    ["k1"; "['a', 'b']"; "12 Road"; "TRUE"; "India"; "Dhaka"; "Dhaka"; "Dhaka";
     "7MQ"; "23.75"; "90.5"; "1207"; "v1"; "Mirpur"; "Block C"; "extra"]
  = mapPlace (Sample.env []) (Sample.row "k1").
Proof.
  apply (mapper_ignores_country_and_extra_columns (Sample.env [])
           ["k1"; "['a', 'b']"; "12 Road"; "TRUE"; "India"; "Dhaka"; "Dhaka"; "Dhaka";
            "7MQ"; "23.75"; "90.5"; "1207"; "v1"; "Mirpur"; "Block C"; "extra"]
           (Sample.row "k1")).
  - cbn. lia.
  - cbn. lia.
  - intros i Hi H4.
    do 15 (destruct i as [|i]; [first [reflexivity | congruence]|]). lia.
Defined.

Lemma lowerByte_letter : forall c n,
  97 <= n <= 122 ->
  (Strings.lowerByte c = ascii_of_nat n
   <-> c = ascii_of_nat n \/ c = ascii_of_nat (n - 32)).
Proof.
  intros c n Hn. unfold Strings.lowerByte.
  pose proof (nat_ascii_bounded c) as Hc.
  pose proof (ascii_nat_embedding c) as Hemb.
  destruct (Nat.leb 65 (nat_of_ascii c) && Nat.leb (nat_of_ascii c) 90) eqn:Hup.
  - apply andb_prop in Hup. destruct Hup as [Hlo Hhi].
    apply Nat.leb_le in Hlo, Hhi. split.
    + intros H. right. apply (f_equal nat_of_ascii) in H.
      rewrite !nat_ascii_embedding in H by lia.
      rewrite <- Hemb. f_equal. lia.
    + intros [H|H]; apply (f_equal nat_of_ascii) in H;
        rewrite nat_ascii_embedding in H by lia; [lia|].
      f_equal. lia.
  - split.
    + intros H. now left.
    + intros [H|H]; [exact H|]. exfalso.
      apply (f_equal nat_of_ascii) in H. rewrite nat_ascii_embedding in H by lia.
      rewrite H in Hup.
      assert (Nat.leb 65 (n - 32) && Nat.leb (n - 32) 90 = true)
        by (apply andb_true_intro; split; apply Nat.leb_le; lia).
      congruence.
Qed.

(** X14.  [IsAutoCompleteAddress] is true exactly when column 3 spells
    "true" in any mix of upper and lower case. *)
Theorem auto_complete_flag_ignores_case :
  forall env record place,
    mapPlace env record = Val place ->
    (IsAutoCompleteAddress place = true
     <-> exists t r u e,
           nth_error record 3 = Some (String t (String r (String u (String e ""))))
           /\ (t = "t" \/ t = "T") /\ (r = "r" \/ r = "R")
           /\ (u = "u" \/ u = "U") /\ (e = "e" \/ e = "E"))%char.
Proof.
  intros env record place H.
  do 15 (destruct record as [|? record]; [discriminate H|]).
  inversion H; subst; clear H. cbn [IsAutoCompleteAddress nth_error].
  rewrite String.eqb_eq.
  pose proof (lowerByte_letter) as L.
  split.
  - intros Hlow.
    destruct s2 as [|t [|r [|u [|e [|x rest]]]]]; try discriminate Hlow.
    cbn [Strings.ToLower] in Hlow. injection Hlow as Ht Hr Hu He.
    exists t, r, u, e. split; [reflexivity|].
    apply (L t 116 ltac:(lia)) in Ht. apply (L r 114 ltac:(lia)) in Hr.
    apply (L u 117 ltac:(lia)) in Hu. apply (L e 101 ltac:(lia)) in He.
    repeat split; assumption.
  - intros (t & r & u & e & Heq & Ht & Hr & Hu & He).
    injection Heq as ->. cbn [Strings.ToLower].
    apply (L t 116 ltac:(lia)) in Ht. apply (L r 114 ltac:(lia)) in Hr.
    apply (L u 117 ltac:(lia)) in Hu. apply (L e 101 ltac:(lia)) in He.
    now rewrite Ht, Hr, Hu, He.
Qed.

Lemma auto_complete_flag_ignores_case_witness :
  IsAutoCompleteAddress (Sample.place "k1") = true.
Proof.
  apply (auto_complete_flag_ignores_case (Sample.env []) (Sample.row "k1")
           (Sample.place "k1") eq_refl).
  exists "T"%char, "R"%char, "U"%char, "E"%char.
  repeat split; first [reflexivity | now right].
Defined.

(** *** [parseArrayFromColumn] *)

Lemma prefix_empty : forall s, prefix "" s = true.
Proof. destruct s; reflexivity. Qed.

Lemma splitFrom_comma_length : forall s,
  List.length (Strings.splitFrom "," 0 s) = S (countByte "," s).
Proof.
  induction s as [|c s IH]; [reflexivity|].
  cbn [Strings.splitFrom countByte prefix String.length Nat.sub].
  destruct (ascii_dec "," c) as [<-|Hc].
  - rewrite prefix_empty. cbn [List.length Ascii.eqb Bool.eqb Nat.add]. now rewrite IH.
  - assert (Hne : Ascii.eqb c "," = false) by (apply Ascii.eqb_neq; congruence).
    rewrite Hne. destruct (Strings.splitFrom "," 0 s); [discriminate IH|].
    cbn [List.length Nat.add] in *. exact IH.
Qed.

(** X15.  The result of [parseArrayFromColumn] has one element more than
    the text has commas once its surrounding brackets are removed; it is
    never empty. *)
Theorem parseArrayFromColumn_counts_commas :
  forall csv,
    List.length (parseArrayFromColumn csv)
    = S (countByte "," (Strings.Trim csv "[]"))
    /\ parseArrayFromColumn csv <> [].
Proof.
  intros csv.
  assert (H : List.length (parseArrayFromColumn csv)
              = S (countByte "," (Strings.Trim csv "[]"))).
  { unfold parseArrayFromColumn. rewrite length_map.
    change (Strings.Split (Strings.Trim csv "[]") ",")
      with (Strings.splitFrom "," 0 (Strings.Trim csv "[]")).
    apply splitFrom_comma_length. }
  split; [exact H|]. intros Hnil. rewrite Hnil in H. discriminate H.
Qed.

Lemma string_snoc : forall s,
  s <> "" -> exists front b, s = (front ++ String b "")%string.
Proof.
  induction s as [|c s IH]; [congruence|]. intros _.
  destruct s as [|d s].
  - exists "", c. reflexivity.
  - destruct (IH ltac:(discriminate)) as (front & b & Heq).
    exists (String c front), b. cbn. now rewrite <- Heq.
Qed.

Lemma allBytes_app : forall f s t,
  allBytes f (s ++ t)%string = allBytes f s && allBytes f t.
Proof.
  induction s as [|c s IH]; intros t; cbn; [reflexivity|].
  now rewrite IH, andb_assoc.
Qed.

Lemma TrimLeft_stop : forall cutset c rest,
  Strings.inCutset cutset c = false ->
  Strings.TrimLeft (String c rest) cutset = String c rest.
Proof. intros cutset c rest H. cbn. now rewrite H. Qed.

Lemma TrimRight_snoc_in : forall cutset s c,
  Strings.inCutset cutset c = true ->
  Strings.TrimRight (s ++ String c "")%string cutset = Strings.TrimRight s cutset.
Proof.
  intros cutset s c Hc. induction s as [|a s IH].
  - cbn. now rewrite Hc.
  - cbn [append Strings.TrimRight]. now rewrite IH.
Qed.

Lemma TrimRight_stop : forall cutset front b,
  Strings.inCutset cutset b = false ->
  Strings.TrimRight (front ++ String b "")%string cutset = (front ++ String b "")%string.
Proof.
  intros cutset front b Hb. induction front as [|a front IH].
  - cbn. now rewrite Hb.
  - cbn [append Strings.TrimRight]. rewrite IH.
    destruct front; reflexivity.
Qed.

Lemma plainByte_facts : forall c,
  plainByte c = true ->
  asciiGraphic c = true
  /\ Strings.inCutset "[]" c = false
  /\ Strings.inCutset "'" c = false
  /\ Ascii.eqb c "," = false.
Proof.
  intros c H. unfold plainByte in H. apply andb_prop in H. destruct H as [Hg H].
  apply negb_true_iff in H. cbn [Strings.inCutset] in *.
  repeat (apply orb_false_iff in H; destruct H as [? H]).
  repeat split; trivial; cbn [Strings.inCutset]; repeat (apply orb_false_iff; split); trivial.
Qed.

(** Between its quotes a plain text comes back from the two trims. *)
Lemma unquote_plain : forall x,
  allBytes plainByte x = true ->
  Strings.TrimSpace (Strings.Trim (quoted x) "'") = x.
Proof.
  intros x Hx. destruct x as [|a rest]; [vm_compute; reflexivity|].
  destruct (string_snoc (String a rest) ltac:(discriminate)) as (front & b & Heq).
  assert (Ha : plainByte a = true) by (cbn in Hx; now apply andb_prop in Hx).
  assert (Hb : plainByte b = true).
  { rewrite Heq, allBytes_app in Hx. apply andb_prop in Hx. destruct Hx as [_ Hx].
    cbn in Hx. now apply andb_prop in Hx. }
  destruct (plainByte_facts a Ha) as (Hga & _ & Hqa & _).
  destruct (plainByte_facts b Hb) as (Hgb & _ & Hqb & _).
  unfold Strings.Trim, quoted.
  change (Strings.TrimLeft ("'" ++ String a rest ++ "'")%string "'")
    with (Strings.TrimLeft (String a (rest ++ "'"))%string "'").
  rewrite TrimLeft_stop by exact Hqa.
  change (String a (rest ++ "'"))%string with (String a rest ++ String "'" "")%string.
  rewrite TrimRight_snoc_in by reflexivity.
  rewrite Heq, TrimRight_stop by exact Hqb.
  rewrite <- Heq. eapply TrimSpace_graphic; eauto.
Qed.

Lemma splitFrom_comma_free : forall x,
  allBytes (fun c => negb (Ascii.eqb c ",")) x = true ->
  Strings.splitFrom "," 0 x = [x].
Proof.
  induction x as [|c x IH]; intros H; [reflexivity|].
  cbn in H. apply andb_prop in H. destruct H as [Hc Hx].
  apply negb_true_iff in Hc.
  cbn [Strings.splitFrom prefix].
  destruct (ascii_dec "," c) as [<-|_]; [discriminate Hc|].
  now rewrite (IH Hx).
Qed.

Lemma splitFrom_comma_app : forall x t,
  allBytes (fun c => negb (Ascii.eqb c ",")) x = true ->
  Strings.splitFrom "," 0 (x ++ String "," t)%string = x :: Strings.splitFrom "," 0 t.
Proof.
  induction x as [|c x IH]; intros t H.
  - cbn [append Strings.splitFrom prefix String.length Nat.sub].
    destruct (ascii_dec "," ","); [|congruence]. now rewrite prefix_empty.
  - cbn in H. apply andb_prop in H. destruct H as [Hc Hx].
    apply negb_true_iff in Hc.
    cbn [append Strings.splitFrom prefix].
    destruct (ascii_dec "," c) as [<-|_]; [discriminate Hc|].
    now rewrite (IH t Hx).
Qed.

Lemma splitFrom_concat : forall items,
  items <> [] ->
  Forall (fun x => allBytes (fun c => negb (Ascii.eqb c ",")) x = true) items ->
  Strings.splitFrom "," 0 (String.concat "," items) = items.
Proof.
  intros items Hne HF. induction HF as [|x items Hx HF IH]; [congruence|].
  destruct items as [|y items].
  - cbn [String.concat]. now apply splitFrom_comma_free.
  - change (String.concat "," (x :: y :: items))
      with (x ++ String "," (String.concat "," (y :: items)))%string.
    rewrite splitFrom_comma_app by exact Hx.
    now rewrite IH.
Qed.

Lemma quoted_comma_free : forall x,
  allBytes plainByte x = true ->
  allBytes (fun c => negb (Ascii.eqb c ",")) (quoted x) = true.
Proof.
  intros x Hx. unfold quoted.
  change ("'" ++ x ++ "'")%string with (String "'" (x ++ "'"))%string.
  cbn [allBytes]. rewrite allBytes_app. cbn.
  rewrite andb_true_r.
  induction x as [|c x IH]; [reflexivity|].
  cbn in Hx |- *. apply andb_prop in Hx. destruct Hx as [Hc Hx].
  destruct (plainByte_facts c Hc) as (_ & _ & _ & Hcomma).
  now rewrite Hcomma, (IH Hx).
Qed.

Lemma string_app_assoc : forall s t u : string,
  ((s ++ t) ++ u = s ++ (t ++ u))%string.
Proof. induction s as [|c s IH]; intros t u; cbn; [|rewrite IH]; reflexivity. Qed.

(** The text between the brackets of a non-empty list text starts and
    ends with a quote. *)
Lemma concat_quoted_ends : forall xs,
  xs <> [] ->
  exists rest front,
    String.concat "," (map quoted xs) = String "'" rest
    /\ String.concat "," (map quoted xs) = (front ++ String "'" "")%string.
Proof.
  induction xs as [|x xs IH]; [congruence|]. intros _.
  destruct xs as [|y xs].
  - exists (x ++ "'")%string, ("'" ++ x)%string. split; reflexivity.
  - destruct (IH ltac:(discriminate)) as (rest & front & _ & Hend).
    change (String.concat "," (map quoted (x :: y :: xs)))
      with (quoted x ++ "," ++ String.concat "," (map quoted (y :: xs)))%string.
    rewrite Hend.
    exists ((x ++ "'") ++ "," ++ front ++ String "'" "")%string,
           (quoted x ++ "," ++ front)%string.
    split; [reflexivity|].
    now rewrite !string_app_assoc.
Qed.

(** X16.  A list text written without white space, ['x1','x2',...,'xn']
    with n >= 1 and the elements free of brackets, quotes, commas, spaces
    and non-ASCII bytes, parses to x1, ..., xn. *)
Theorem parseArrayFromColumn_reads_compact_lists :
  forall xs,
    xs <> [] ->
    Forall (fun x => allBytes plainByte x = true) xs ->
    parseArrayFromColumn (listText xs) = xs.
Proof.
  intros xs Hne HF. unfold parseArrayFromColumn, listText.
  destruct (concat_quoted_ends xs Hne) as (rest & front & Hstart & Hend).
  assert (Htrim : Strings.Trim ("[" ++ String.concat "," (map quoted xs) ++ "]")%string "[]"
                  = String.concat "," (map quoted xs)).
  { unfold Strings.Trim.
    change (Strings.TrimLeft ("[" ++ String.concat "," (map quoted xs) ++ "]")%string "[]")
      with (Strings.TrimLeft (String.concat "," (map quoted xs) ++ "]")%string "[]").
    rewrite Hstart at 1.
    change (String "'" rest ++ "]")%string with (String "'" (rest ++ "]"))%string.
    rewrite TrimLeft_stop by reflexivity.
    change (String "'" (rest ++ "]"))%string with (String "'" rest ++ String "]" "")%string.
    rewrite <- Hstart, TrimRight_snoc_in by reflexivity.
    rewrite Hend. now apply TrimRight_stop. }
  rewrite Htrim.
  change (Strings.Split (String.concat "," (map quoted xs)) ",")
    with (Strings.splitFrom "," 0 (String.concat "," (map quoted xs))).
  rewrite splitFrom_concat.
  - rewrite map_map. rewrite <- (map_id xs) at 2.
    apply map_ext_in. intros x Hx.
    rewrite Forall_forall in HF. apply unquote_plain. now apply HF.
  - destruct xs; [congruence|discriminate].
  - apply Forall_map. eapply Forall_impl; [|exact HF].
    intros x Hx. now apply quoted_comma_free.
Qed.

Lemma parseArrayFromColumn_reads_compact_lists_witness :
  parseArrayFromColumn "['restaurant','point_of_interest']"
  = ["restaurant"; "point_of_interest"].
Proof.
  apply (parseArrayFromColumn_reads_compact_lists ["restaurant"; "point_of_interest"]).
  - discriminate.
  - repeat constructor.
Defined.

(** *** The progress file name and a blank progress file *)

Lemma beforeDot_dot_free : forall stem,
  allBytes (fun c => negb (Ascii.eqb c ".")) stem = true ->
  beforeDot stem = stem
  /\ forall tail, beforeDot (stem ++ String "." tail)%string = stem.
Proof.
  induction stem as [|c stem IH]; intros H.
  - split; [reflexivity|intros tail; reflexivity].
  - cbn in H. apply andb_prop in H. destruct H as [Hc Hs].
    apply negb_true_iff in Hc. destruct (IH Hs) as [IH1 IH2].
    cbn [beforeDot append]. rewrite Hc, IH1. split; [reflexivity|].
    intros tail. now rewrite IH2.
Qed.

(** X17.  The progress file name keeps the input path up to its first dot
    only: a path without a dot gives path_progress.txt, and a path
    stem.tail with a dot-free stem gives stem_progress.txt whatever the tail
    -- so every path that starts with a dot gives _progress.txt. *)
Theorem progress_file_drops_everything_from_first_dot :
  forall stem,
    allBytes (fun c => negb (Ascii.eqb c ".")) stem = true ->
    deriveProgressFile stem = Val (stem ++ "_progress.txt")%string
    /\ forall tail,
         deriveProgressFile (stem ++ String "." tail)%string
         = Val (stem ++ "_progress.txt")%string.
Proof.
  intros stem H. destruct (beforeDot_dot_free stem H) as [H1 H2].
  split; [|intros tail]; rewrite deriveProgressFile_val; [now rewrite H1|now rewrite H2].
Qed.

Lemma progress_file_drops_everything_from_first_dot_witness :
  deriveProgressFile "./data/places.csv" = Val "_progress.txt"
  /\ deriveProgressFile "../other/roads.csv" = Val "_progress.txt".
Proof.
  destruct (progress_file_drops_everything_from_first_dot "" eq_refl) as [_ H].
  split; [apply (H "/data/places.csv")|apply (H "./other/roads.csv")].
Defined.

Lemma trimSpaceLeft_blank : forall table s fuel,
  allBytes (Strings.inCutset Strings.asciiSpace) s = true ->
  String.length s <= fuel ->
  Strings.trimSpaceLeft fuel table s = "".
Proof.
  intros table s. induction s as [|c s IH]; intros fuel Hs Hfuel.
  - destruct fuel; reflexivity.
  - cbn [allBytes] in Hs. apply andb_prop in Hs. destruct Hs as [Hc Hs].
    destruct fuel as [|fuel]; [cbn in Hfuel; lia|].
    cbn [Strings.trimSpaceLeft Strings.spaceWidth]. rewrite Hc.
    cbn [Strings.dropBytes]. apply IH; trivial. cbn in Hfuel. lia.
Qed.

Lemma TrimSpace_blank : forall s,
  allBytes (Strings.inCutset Strings.asciiSpace) s = true -> Strings.TrimSpace s = "".
Proof.
  intros s Hs. unfold Strings.TrimSpace.
  now rewrite (trimSpaceLeft_blank Strings.unicodeSpaces s (String.length s) Hs).
Qed.

(** X18.  A progress file that holds nothing but spaces, tabs and line
    ends counts as no checkpoint: [getLastProcessedPlaceID] returns the
    empty key and the run processes the file from its first data row. *)
Theorem blank_progress_file_means_start_over :
  forall env name csvFile mongoURI dbName collectionName w data header rows places,
    files w name = Some data ->
    allBytes (Strings.inCutset Strings.asciiSpace) data = true ->
    ReadFileFault env name = None ->
    Connect env mongoURI = None ->
    Open env csvFile = Ok (Row header :: map Row rows) ->
    Forall2 (fun r place => mapPlace env r = Val place) rows places ->
    getLastProcessedPlaceID env name w = Ok ""
    /\ processCSV env name csvFile mongoURI dbName collectionName w
       = commitAll env name (chunks batchSize places)
           (emit (EvPrint ("Header: " ++ showRecord header)%string) w).
Proof.
  intros env name csvFile mongoURI dbName collectionName w data header rows places
    Hfile Hblank Hfault Hconn Hopen Hmap.
  assert (Hget : getLastProcessedPlaceID env name w = Ok "")
    by (unfold getLastProcessedPlaceID; now rewrite Hfault, Hfile, TrimSpace_blank).
  split; [exact Hget|].
  rewrite (processCSV_started _ _ _ _ _ _ _ _ _ _ Hconn Hopen Hget).
  replace (String.eqb "" "") with true by reflexivity.
  rewrite (loop_commits env name "" rows places); trivial.
  cbn [batch List.length]. apply batchSize_pos.
Qed.

Lemma blank_progress_file_means_start_over_witness :
  getLastProcessedPlaceID (Sample.env [Sample.row "k1"]) "places_progress.txt"
    (Sample.withFile "places_progress.txt" (Strings.bytes [32; 10])) = Ok "".
Proof.
  apply (blank_progress_file_means_start_over (Sample.env [Sample.row "k1"])
           "places_progress.txt" "places.csv" "mongodb://localhost:27017" "geo" "places"
           (Sample.withFile "places_progress.txt" (Strings.bytes [32; 10]))
           (Strings.bytes [32; 10]) Sample.header [Sample.row "k1"] [Sample.place "k1"]);
    try reflexivity.
  repeat constructor.
Defined.

(** *** The earlier seeder *)

Lemma legacy_collection_app : forall t1 t2,
  Legacy.collection (t1 ++ t2) = Legacy.collection t1 ++ Legacy.collection t2.
Proof. intros; apply flat_map_app. Qed.

Lemma legacy_trace_update : forall env name k w,
  exists events,
    Legacy.trace (Legacy.updateLastProcessedPlaceID env name k w)
    = Legacy.trace w ++ events
    /\ Legacy.collection events = [].
Proof.
  intros env name k w. unfold Legacy.updateLastProcessedPlaceID.
  destruct (WriteFile env _ name k) as [|err residue]; cbn [Legacy.emit Legacy.trace Legacy.setFile].
  - eexists. split; reflexivity.
  - exists [Legacy.EvWrite name k (WriteFailed err residue);
            Legacy.EvLog ("Error updating progress file: " ++ err)%string].
    split; [now rewrite <- app_assoc|reflexivity].
Qed.

Lemma legacy_lastKey_snoc : forall b location,
  Legacy.lastKey (b ++ [location]) = Legacy.PlaceID location.
Proof.
  intros. unfold Legacy.lastKey.
  rewrite length_app, Nat.add_sub, nth_error_app2, Nat.sub_diag by lia.
  reflexivity.
Qed.

Lemma legacy_insertRemaining_commit : forall env store name st,
  List.length (Legacy.batch st) <= batchSize ->
  Legacy.insertRemaining env store name st
  = Legacy.commitAll env store name (chunks batchSize (Legacy.batch st)) (Legacy.world st).
Proof.
  intros env store name st Hlen. unfold Legacy.insertRemaining.
  destruct (Legacy.batch st) as [|p b] eqn:Hb; [reflexivity|].
  rewrite chunks_small by (cbn [List.length] in *; lia).
  replace (Nat.ltb 0 (List.length (p :: b))) with true by reflexivity.
  cbn [Legacy.commitAll].
  destruct (Legacy.insertMany store (p :: b) (Legacy.world st)) as [[err|] w1]; trivial.
  unfold Legacy.lastKey.
  destruct (nth_error (p :: b) (List.length (p :: b) - 1)) eqn:Hn; trivial.
  apply nth_error_None in Hn. cbn [List.length] in Hn. lia.
Qed.

(** While every line has a column 4 and every kept line maps, the earlier
    loop is the committer run over the chunks of what is buffered followed
    by the documents of the kept lines. *)
Lemma legacy_loop_commits : forall env store name key lines docs st,
  Forall (fun r => 5 <= List.length r) lines ->
  Forall2 (fun r d => Legacy.mapLocation env r = Val d) (Legacy.kept lines) docs ->
  Legacy.startProcessing st = true ->
  List.length (Legacy.batch st) < batchSize ->
  Legacy.loop env store name key (map Row lines) st
  = Legacy.commitAll env store name (chunks batchSize (Legacy.batch st ++ docs))
      (Legacy.world st).
Proof.
  intros env store name key lines docs st Hwide. revert docs st.
  induction Hwide as [|r lines Hr Hwide IH]; intros docs st Hmap Hs Hlen.
  - inversion Hmap; subst. rewrite app_nil_r.
    apply legacy_insertRemaining_commit. lia.
  - cbn [map Legacy.loop]. unfold Legacy.body. rewrite Hs. cbn [negb].
    unfold index at 1.
    destruct (nth_error r 4) as [country|] eqn:Hc;
      [|apply nth_error_None in Hc; lia].
    unfold Legacy.kept in Hmap. cbn [filter] in Hmap. rewrite Hc in Hmap.
    destruct (String.eqb country "Bangladesh"); cbn [negb].
    + inversion Hmap as [|? d ? docs1 Hd Hrest]; subst.
      rewrite Hd.
      destruct (Nat.leb batchSize (List.length (Legacy.batch st ++ [d]))) eqn:Hfull.
      * apply Nat.leb_le in Hfull. rewrite length_app in Hfull. cbn [List.length] in Hfull.
        replace (Legacy.batch st ++ d :: docs1) with ((Legacy.batch st ++ [d]) ++ docs1)
          by (now rewrite <- app_assoc).
        rewrite chunks_app_full
          by (try apply batchSize_pos; rewrite length_app; cbn [List.length]; lia).
        cbn [Legacy.commitAll].
        destruct (Legacy.insertMany store (Legacy.batch st ++ [d]) (Legacy.world st))
          as [[err|] w1]; trivial.
        rewrite legacy_lastKey_snoc.
        rewrite (IH docs1); trivial. cbn [Legacy.batch List.length]. apply batchSize_pos.
      * apply Nat.leb_gt in Hfull. rewrite (IH docs1); trivial.
        cbn [Legacy.batch]. now rewrite <- app_assoc.
    + now apply IH.
Qed.

Lemma legacy_commitAll_all_ok : forall env store name batches w,
  (forall i b, store i b = None) ->
  exists w1,
    Legacy.commitAll env store name batches w = (Returned None, w1)
    /\ Legacy.collection (Legacy.trace w1) = Legacy.collection (Legacy.trace w) ++ batches.
Proof.
  intros env store name batches w Hok. revert w.
  induction batches as [|b batches IH]; intros w.
  - exists w. cbn. now rewrite app_nil_r.
  - cbn [Legacy.commitAll]. unfold Legacy.insertMany. rewrite Hok.
    destruct (IH (Legacy.updateLastProcessedPlaceID env name (Legacy.lastKey b)
                    (Legacy.emit (Legacy.EvInsert b None) w)))
      as (w1 & Hrun & Hcol).
    exists w1. split; [exact Hrun|].
    rewrite Hcol.
    destruct (legacy_trace_update env name (Legacy.lastKey b)
                (Legacy.emit (Legacy.EvInsert b None) w)) as (events & -> & Hev).
    cbn [Legacy.emit Legacy.trace]. rewrite !legacy_collection_app, Hev. cbn.
    now rewrite app_nil_r, <- app_assoc.
Qed.

(** X19.  The earlier seeder, run from scratch with every insert
    succeeding, stores exactly the lines whose column 4 is "Bangladesh", in
    file order and in batches of 1000, and nothing of any other line.  It
    treats every line of the file as data, the first one included: it reads
    no header.  Lines that are skipped need five columns only. *)
Theorem legacy_run_stores_the_bangladesh_lines :
  forall env store name csvFile mongoURI dbName collectionName w lines docs,
    Connect env mongoURI = None ->
    Open env csvFile = Ok (map Row lines) ->
    ReadFileFault env name = None ->
    Legacy.files w name = None ->
    (forall i b, store i b = None) ->
    Forall (fun r => 5 <= List.length r) lines ->
    Forall2 (fun r d => Legacy.mapLocation env r = Val d) (Legacy.kept lines) docs ->
    exists w1,
      Legacy.processCSV env store name csvFile mongoURI dbName collectionName w
      = (Returned None, w1)
      /\ Legacy.collection (Legacy.trace w1)
         = Legacy.collection (Legacy.trace w) ++ chunks batchSize docs
      /\ List.concat (Legacy.collection (Legacy.trace w1))
         = List.concat (Legacy.collection (Legacy.trace w)) ++ docs.
Proof.
  intros env store name csvFile mongoURI dbName collectionName w lines docs
    Hconn Hopen Hfault Hfile Hins Hwide Hmap.
  unfold Legacy.processCSV, Legacy.getLastProcessedPlaceID.
  rewrite Hconn, Hopen, Hfault, Hfile.
  replace (String.eqb "" "") with true by reflexivity.
  rewrite (legacy_loop_commits env store name "" lines docs); trivial;
    [|cbn [Legacy.batch List.length]; apply batchSize_pos].
  cbn [Legacy.batch Legacy.world app].
  destruct (legacy_commitAll_all_ok env store name (chunks batchSize docs) w Hins)
    as (w1 & Hrun & Hcol).
  exists w1. split; [exact Hrun|]. split; [exact Hcol|].
  rewrite Hcol, concat_app, concat_chunks by apply batchSize_pos. reflexivity.
Qed.

Lemma legacy_run_stores_the_bangladesh_lines_witness :
  exists w1,
    Legacy.processCSV
      {| LoadDotenv := None; Getenv := Sample.getenv; Connect := fun _ => None;
         Open := fun _ => Ok (map Row [Sample.header; Sample.row "k1";
                                       ["k2"; "[]"; "9 Lane"; "false"; "India"]]);
         ReadFileFault := fun _ => None; ParseFloat := Sample.parse;
         InsertMany := fun _ _ => None; WriteFile := fun _ _ _ => Written |}
      (fun _ _ => None)
      "places_progress.txt" "places.csv" "mongodb://localhost:27017" "geo" "places"
      {| Legacy.files := fun _ => None; Legacy.trace := [] |}
    = (Returned None, w1)
    /\ List.concat (Legacy.collection (Legacy.trace w1))
       = [] ++ [{| Legacy.PlaceID := "k1"; Legacy.Address := "12 Road";
                   Legacy.Coord := Some {| Legacy.Lat := 23.75%float;
                                           Legacy.Long := 90.5%float |};
                   Legacy.Suggesters := []; Legacy.Reviewers := [];
                   Legacy.IsMerged := false; Legacy.IsSuggested := false;
                   Legacy.IsReviewed := false; Legacy.CorrectCount := 0 |}].
Proof.
  destruct (legacy_run_stores_the_bangladesh_lines
              {| LoadDotenv := None; Getenv := Sample.getenv; Connect := fun _ => None;
                 Open := fun _ => Ok (map Row [Sample.header; Sample.row "k1";
                                               ["k2"; "[]"; "9 Lane"; "false"; "India"]]);
                 ReadFileFault := fun _ => None; ParseFloat := Sample.parse;
                 InsertMany := fun _ _ => None; WriteFile := fun _ _ _ => Written |}
              (fun _ _ => None)
              "places_progress.txt" "places.csv" "mongodb://localhost:27017" "geo" "places"
              {| Legacy.files := fun _ => None; Legacy.trace := [] |}
              [Sample.header; Sample.row "k1"; ["k2"; "[]"; "9 Lane"; "false"; "India"]]
              [{| Legacy.PlaceID := "k1"; Legacy.Address := "12 Road";
                  Legacy.Coord := Some {| Legacy.Lat := 23.75%float;
                                          Legacy.Long := 90.5%float |};
                  Legacy.Suggesters := []; Legacy.Reviewers := [];
                  Legacy.IsMerged := false; Legacy.IsSuggested := false;
                  Legacy.IsReviewed := false; Legacy.CorrectCount := 0 |}]
              eq_refl eq_refl eq_refl eq_refl (fun _ _ => eq_refl))
    as (w1 & Hrun & _ & Hall).
  - repeat constructor; cbn; lia.
  - repeat constructor.
  - exists w1. split; [exact Hrun|exact Hall].
Defined.

(** *** At least once *)

(** X20.  A checkpoint write that fails can make the next run store a
    batch twice.  Let a run from scratch insert its first batch, fail to
    write the progress file (no file is left) and then fail on the second
    insert.  The run after it finds no checkpoint, starts from the first
    row and, when all its inserts succeed, stores the first batch a second
    time before the rest of the file. *)
Theorem lost_checkpoint_write_duplicates_a_batch :
  forall env env2 name csvFile mongoURI dbName collectionName w header
         first more placesFirst placesMore err werr,
    trace w = [] ->
    files w name = None ->
    Connect env mongoURI = None ->
    Open env csvFile = Ok (Row header :: map Row (first ++ more)) ->
    ReadFileFault env name = None ->
    (forall b, InsertMany env 0 b = None) ->
    (forall b, InsertMany env 1 b = Some err) ->
    (forall n d, WriteFile env 0 n d = WriteFailed werr None) ->
    Connect env2 mongoURI = None ->
    Open env2 csvFile = Ok (Row header :: map Row (first ++ more)) ->
    ReadFileFault env2 name = None ->
    ParseFloat env2 = ParseFloat env ->
    (forall i b, InsertMany env2 i b = None) ->
    Forall2 (fun r place => mapPlace env r = Val place) first placesFirst ->
    Forall2 (fun r place => mapPlace env r = Val place) more placesMore ->
    List.length first = batchSize ->
    more <> [] ->
    exists w1 w2,
      processCSV env name csvFile mongoURI dbName collectionName w
      = (Returned (Some err), w1)
      /\ collection (trace w1) = [placesFirst]
      /\ files w1 name = None
      /\ processCSV env2 name csvFile mongoURI dbName collectionName w1 = (Returned None, w2)
      /\ collection (trace w2)
         = [placesFirst] ++ [placesFirst] ++ chunks batchSize placesMore.
Proof.
  intros env env2 name csvFile mongoURI dbName collectionName w header
    first more placesFirst placesMore err werr
    Htr Hfile Hconn Hopen Hfault Hok Hfail Hwr Hconn2 Hopen2 Hfault2 Hparse Hins2
    Hfirst Hmore Hlen Hne.
  pose proof batchSize_pos as Hbs.
  assert (Hall : Forall2 (fun r place => mapPlace env r = Val place)
                   (first ++ more) (placesFirst ++ placesMore))
    by (now apply Forall2_app).
  assert (Hall2 : Forall2 (fun r place => mapPlace env2 r = Val place)
                    (first ++ more) (placesFirst ++ placesMore)).
  { eapply Forall2_impl; [|exact Hall]. intros r p Hr.
    now rewrite (mapPlace_same_parser env env2). }
  assert (HlenP : List.length placesFirst = batchSize)
    by (rewrite <- Hlen; symmetry; eapply Forall2_length; eassumption).
  assert (HmoreP : placesMore <> [])
    by (intros ->; inversion Hmore; subst; congruence).
  assert (Hchunks : chunks batchSize (placesFirst ++ placesMore)
                    = placesFirst :: firstn batchSize placesMore
                        :: chunks batchSize (skipn batchSize placesMore)).
  { rewrite chunks_app_full by assumption.
    now rewrite (chunks_step batchSize placesMore) by assumption. }
  set (w0 := emit (EvPrint ("Header: " ++ showRecord header)%string) w).
  assert (Hw0 : trace w0 = [EvPrint ("Header: " ++ showRecord header)%string])
    by (unfold w0; cbn [emit trace]; now rewrite Htr).
  (* the first run *)
  rewrite (fresh_run_is_commitAll env name csvFile mongoURI dbName collectionName
             w header _ _ Hconn Hopen Hfault Hfile Hall).
  fold w0. rewrite Hchunks. cbn [commitAll].
  rewrite insertMany_eq, Hw0.
  change (insertCalls [EvPrint ("Header: " ++ showRecord header)%string]) with 0.
  rewrite Hok.
  set (wa := emit (EvInsert placesFirst None) w0).
  assert (Hwa : trace wa = [EvPrint ("Header: " ++ showRecord header)%string;
                            EvInsert placesFirst None])
    by (unfold wa; cbn [emit trace]; now rewrite Hw0).
  set (wb := updateLastProcessedPlaceID env name (lastKey placesFirst) wa).
  assert (Hwb : trace wb = trace wa ++ writeEvents name (lastKey placesFirst)
                                         (WriteFailed werr None)).
  { unfold wb. rewrite trace_update, Hwa.
    change (writeCalls [EvPrint ("Header: " ++ showRecord header)%string;
                        EvInsert placesFirst None]) with 0.
    now rewrite Hwr. }
  assert (Hfb : files wb name = None).
  { unfold wb, updateLastProcessedPlaceID. rewrite Hwa.
    change (writeCalls [EvPrint ("Header: " ++ showRecord header)%string;
                        EvInsert placesFirst None]) with 0.
    rewrite Hwr. cbn [emit files setFile]. now rewrite String.eqb_refl. }
  rewrite insertMany_eq, Hwb, Hwa.
  change (insertCalls (_ ++ _)) with 1.
  rewrite Hfail.
  set (w1 := emit (EvInsert (firstn batchSize placesMore) (Some err)) wb).
  assert (Hcol1 : collection (trace w1) = [placesFirst]).
  { unfold w1. cbn [emit trace]. rewrite Hwb, Hwa. reflexivity. }
  assert (Hf1 : files w1 name = None) by exact Hfb.
  (* the second run *)
  destruct (commitAll_all_ok env2 name (chunks batchSize (placesFirst ++ placesMore))
              (emit (EvPrint ("Header: " ++ showRecord header)%string) w1) Hins2)
    as (w2 & Hrun2 & Hcol2 & _).
  exists w1, w2. split; [reflexivity|]. split; [exact Hcol1|]. split; [exact Hf1|].
  rewrite (fresh_run_is_commitAll env2 name csvFile mongoURI dbName collectionName
             w1 header _ _ Hconn2 Hopen2 Hfault2 Hf1 Hall2).
  split; [exact Hrun2|].
  rewrite Hcol2. cbn [emit trace]. rewrite collection_app, Hcol1.
  cbn [collection flat_map app].
  now rewrite chunks_app_full by assumption.
Qed.

Lemma lost_checkpoint_write_duplicates_a_batch_witness :
  exists w1 w2,
    processCSV
      {| LoadDotenv := None; Getenv := Sample.getenv; Connect := fun _ => None;
         Open := fun _ => Ok (Row Sample.header
                                :: map Row (map Sample.row (Sample.keysUpTo 1000)
                                              ++ [Sample.row "1001"]));
         ReadFileFault := fun _ => None; ParseFloat := Sample.parse;
         InsertMany := fun i _ => if Nat.eqb i 1 then Some "connection reset" else None;
         WriteFile := fun _ _ _ => WriteFailed "disk full" None |}
      "places_progress.txt" "places.csv" "mongodb://localhost:27017" "geo" "places"
      Sample.noFiles
    = (Returned (Some "connection reset"), w1)
    /\ processCSV
         (Sample.env (map Sample.row (Sample.keysUpTo 1000) ++ [Sample.row "1001"]))
         "places_progress.txt" "places.csv" "mongodb://localhost:27017" "geo" "places" w1
       = (Returned None, w2)
    /\ collection (trace w2)
       = [map Sample.place (Sample.keysUpTo 1000)]
           ++ [map Sample.place (Sample.keysUpTo 1000)]
           ++ chunks batchSize [Sample.place "1001"].
Proof.
  destruct (lost_checkpoint_write_duplicates_a_batch
              {| LoadDotenv := None; Getenv := Sample.getenv; Connect := fun _ => None;
                 Open := fun _ => Ok (Row Sample.header
                                        :: map Row (map Sample.row (Sample.keysUpTo 1000)
                                                      ++ [Sample.row "1001"]));
                 ReadFileFault := fun _ => None; ParseFloat := Sample.parse;
                 InsertMany := fun i _ => if Nat.eqb i 1 then Some "connection reset" else None;
                 WriteFile := fun _ _ _ => WriteFailed "disk full" None |}
              (Sample.env (map Sample.row (Sample.keysUpTo 1000) ++ [Sample.row "1001"]))
              "places_progress.txt" "places.csv" "mongodb://localhost:27017" "geo" "places"
              Sample.noFiles Sample.header
              (map Sample.row (Sample.keysUpTo 1000)) [Sample.row "1001"]
              (map Sample.place (Sample.keysUpTo 1000)) [Sample.place "1001"]
              "connection reset" "disk full"
              eq_refl eq_refl eq_refl eq_refl eq_refl
              (fun _ => eq_refl) (fun _ => eq_refl) (fun _ _ => eq_refl)
              eq_refl eq_refl eq_refl eq_refl (fun _ _ => eq_refl))
    as (w1 & w2 & Hrun1 & _ & _ & Hrun2 & Hcol).
  - now apply sample_rows_map.
  - repeat constructor.
  - vm_compute. reflexivity.
  - discriminate.
  - exists w1, w2. repeat split; assumption.
Defined.
